(** * CalcuVIN: the calculator reducer and the VIN text utilities

    A shallow embedding of [src/app/(tabs)/index.tsx] (the calculator's
    reducer) and of the three VIN functions of [src/app/(tabs)/explore.tsx].

    JavaScript numbers are IEEE 754 binary64 values; they are modelled by
    [spec_float] with precision 53 and maximal exponent 1024, whose operations
    are the rounded ones.  JavaScript strings are modelled by [string], one
    [ascii] per code unit; the model covers ASCII text (code units 0..127),
    which is all that the calculator ever puts on its display. *)

From Stdlib Require Import ZArith Bool List String Ascii Lia.
From Stdlib Require Import Floats.SpecFloat.
Import ListNotations.

Local Open Scope string_scope.
Local Open Scope Z_scope.

(** ** The built-ins of the language that the two files call *)

Module JS.

(** *** Characters and strings *)

Definition code (c : ascii) : Z := Z.of_N (N_of_ascii c).

Definition between (lo hi : Z) (c : ascii) : bool :=
  (lo <=? code c) && (code c <=? hi).

Definition is_digit : ascii -> bool := between 48 57.
Definition is_upper : ascii -> bool := between 65 90.
Definition is_lower : ascii -> bool := between 97 122.

(** White space and line terminators (the ASCII ones): TAB, LF, VT, FF, CR
    and SPACE.  This is what [trim], [\s] and [Number] skip. *)
Definition is_space (c : ascii) : bool :=
  between 9 13 c || (code c =? 32).

Fixpoint all_chars (f : ascii -> bool) (s : string) : bool :=
  match s with
  | EmptyString => true
  | String c t => f c && all_chars f t
  end.

Fixpoint any_char (f : ascii -> bool) (s : string) : bool :=
  match s with
  | EmptyString => false
  | String c t => f c || any_char f t
  end.

Fixpoint map_chars (f : ascii -> ascii) (s : string) : string :=
  match s with
  | EmptyString => EmptyString
  | String c t => String (f c) (map_chars f t)
  end.

Fixpoint filter_chars (f : ascii -> bool) (s : string) : string :=
  match s with
  | EmptyString => EmptyString
  | String c t => if f c then String c (filter_chars f t) else filter_chars f t
  end.

Fixpoint repeat_char (c : ascii) (n : nat) : string :=
  match n with
  | O => EmptyString
  | S k => String c (repeat_char c k)
  end.

Fixpoint take (n : nat) (s : string) : string :=
  match n, s with
  | S k, String c t => String c (take k t)
  | _, _ => EmptyString
  end.

Fixpoint drop (n : nat) (s : string) : string :=
  match n, s with
  | S k, String _ t => drop k t
  | _, _ => s
  end.

(** [s.includes(sub)] *)
Fixpoint includes (sub s : string) : bool :=
  prefix sub s ||
  match s with
  | EmptyString => false
  | String _ t => includes sub t
  end.

(** [s.slice(i, j)] for [0 <= i <= j] *)
Definition slice (i j : nat) (s : string) : string := take (j - i) (drop i s).

(** [s.toUpperCase()] *)
Definition upper_char (c : ascii) : ascii :=
  if is_lower c then ascii_of_N (N_of_ascii c - 32) else c.

Definition toUpperCase : string -> string := map_chars upper_char.

(** [s.trim()] *)
Fixpoint trimStart (s : string) : string :=
  match s with
  | String c t => if is_space c then trimStart t else s
  | EmptyString => EmptyString
  end.

Fixpoint trimEnd (s : string) : string :=
  match s with
  | EmptyString => EmptyString
  | String c t =>
      match trimEnd t with
      | EmptyString => if is_space c then EmptyString else String c EmptyString
      | t' => String c t'
      end
  end.

Definition trim (s : string) : string := trimEnd (trimStart s).

(** *** Numbers *)

Definition number : Type := spec_float.

Definition prec : Z := 53.
Definition emax : Z := 1024.

Definition NaN : number := S754_nan.
Definition zero : number := S754_zero false.

Definition add : number -> number -> number := SFadd prec emax.
Definition sub : number -> number -> number := SFsub prec emax.
Definition mul : number -> number -> number := SFmul prec emax.
Definition div : number -> number -> number := SFdiv prec emax.
Definition neg : number -> number := SFopp.

(** [a === b] on numbers: [NaN] equals nothing, [+0 === -0]. *)
Definition strict_eq : number -> number -> bool := SFeqb.

(** [Number.isFinite(n)] *)
Definition isFinite (n : number) : bool :=
  match n with
  | S754_zero _ | S754_finite _ _ _ => true
  | S754_infinity _ | S754_nan => false
  end.

(** A number is one of the binary64 format: its mantissa has at most 53 bits
    and its exponent is at most 971. *)
Definition bounded64 (x : number) : Prop :=
  match x with
  | S754_finite _ m e => Zpos (digits2_pos m) <= 53 /\ e <= 971
  | _ => True
  end.

(** [Object.is(n, -0)] *)
Definition is_neg_zero (n : number) : bool :=
  match n with
  | S754_zero true => true
  | _ => false
  end.

(** The binary64 value nearest to the fraction [p / q] ([0 <= p], [0 < q]),
    ties to even, with the sign [sgn]. *)
Definition of_ratio (sgn : bool) (p q : Z) : number :=
  match p with
  | Zpos _ =>
      let '(mz, ez, lz) := SFdiv_core_binary prec emax p 0 q 0 in
      binary_round_aux prec emax sgn mz ez lz
  | _ => S754_zero sgn
  end.

(** The binary64 value nearest to [m * 10 ^ e]. *)
Definition of_decimal (sgn : bool) (m e : Z) : number :=
  if 0 <=? e then of_ratio sgn (m * 10 ^ e) 1 else of_ratio sgn m (10 ^ (- e)).

Definition of_Z (z : Z) : number :=
  of_ratio (z <? 0) (Z.abs z) 1.

(** *** [Number(s)]: from a string to a number

    The grammar is the one of the language's [StringToNumber]: optional white
    space around either nothing (the value is [+0]), a signed decimal literal
    ([Infinity], [12], [12.], [12.5], [.5], each but the first with an
    optional exponent) or an unsigned [0x], [0o] or [0b] literal.  Anything
    else is [NaN]. *)

Definition digit_val (c : ascii) : Z := code c - 48.

Definition hex_val (c : ascii) : option Z :=
  if is_digit c then Some (code c - 48)
  else if between 65 70 c then Some (code c - 55)
  else if between 97 102 c then Some (code c - 87)
  else None.

(** The longest prefix of digits, and what follows it. *)
Fixpoint span_digits (s : string) : string * string :=
  match s with
  | String c t =>
      if is_digit c then let '(d, r) := span_digits t in (String c d, r)
      else (EmptyString, s)
  | EmptyString => (EmptyString, EmptyString)
  end.

Fixpoint dec_value (acc : Z) (s : string) : Z :=
  match s with
  | EmptyString => acc
  | String c t => dec_value (10 * acc + digit_val c) t
  end.

(** A whole string of digits of the base [b], at least one. *)
Fixpoint radix_value (b : Z) (acc : Z) (s : string) : option Z :=
  match s with
  | EmptyString => Some acc
  | String c t =>
      match hex_val c with
      | Some v => if v <? b then radix_value b (b * acc + v) t else None
      | None => None
      end
  end.

Definition parse_radix (b : Z) (s : string) : option Z :=
  match s with
  | EmptyString => None
  | _ => radix_value b 0 s
  end.

(** The exponent part, which runs to the end of the string. *)
Definition parse_exponent (s : string) : option Z :=
  match s with
  | EmptyString => Some 0
  | String c t =>
      if (code c =? 101) || (code c =? 69) then
        let '(sgn, ds) :=
          match t with
          | String "+" u => (false, u)
          | String "-" u => (true, u)
          | _ => (false, t)
          end in
        match ds with
        | EmptyString => None
        | _ => if all_chars is_digit ds
               then Some (if sgn then - dec_value 0 ds else dec_value 0 ds)
               else None
        end
      else None
  end.

(** An unsigned decimal literal other than [Infinity], as a pair [(m, e)]
    that stands for [m * 10 ^ e]. *)
Definition parse_unsigned_decimal (s : string) : option (Z * Z) :=
  let '(ip, r1) := span_digits s in
  match r1 with
  | String "." r2 =>
      let '(fp, r3) := span_digits r2 in
      match ip, fp with
      | EmptyString, EmptyString => None
      | _, _ =>
          match parse_exponent r3 with
          | Some x => Some (dec_value 0 (ip ++ fp)%string, x - Z.of_nat (String.length fp))
          | None => None
          end
      end
  | _ =>
      match ip with
      | EmptyString => None
      | _ =>
          match parse_exponent r1 with
          | Some x => Some (dec_value 0 ip, x)
          | None => None
          end
      end
  end.

Definition parse_signed_decimal (sgn : bool) (s : string) : number :=
  if String.eqb s "Infinity" then S754_infinity sgn
  else
    match parse_unsigned_decimal s with
    | Some (m, e) => of_decimal sgn m e
    | None => NaN
    end.

Definition Number (text : string) : number :=
  match trim text with
  | EmptyString => zero
  | String "+" t => parse_signed_decimal false t
  | String "-" t => parse_signed_decimal true t
  | String "0" (String "x" t) | String "0" (String "X" t) =>
      match parse_radix 16 t with Some v => of_ratio false v 1 | None => NaN end
  | String "0" (String "o" t) | String "0" (String "O" t) =>
      match parse_radix 8 t with Some v => of_ratio false v 1 | None => NaN end
  | String "0" (String "b" t) | String "0" (String "B" t) =>
      match parse_radix 2 t with Some v => of_ratio false v 1 | None => NaN end
  | t => parse_signed_decimal false t
  end.

(** *** [String(n)]: from a number to a string *)

Definition digit_char (d : Z) : ascii := ascii_of_N (Z.to_N (48 + d)).

Fixpoint digits_fuel (fuel : nat) (n : Z) (acc : string) : string :=
  let acc' := String (digit_char (n mod 10)) acc in
  match fuel with
  | O => acc'
  | S f => if n <? 10 then acc' else digits_fuel f (n / 10) acc'
  end.

(** The decimal digits of [n >= 0], most significant first. *)
Definition digits_of (n : Z) : string :=
  digits_fuel (Z.to_nat (Z.log2 n)) n EmptyString.

(** The value [m * 2 ^ e] as a fraction. *)
Definition fraction_of (m : positive) (e : Z) : Z * Z :=
  if 0 <=? e then (Zpos m * 2 ^ e, 1) else (Zpos m, 2 ^ (- e)).

(** [p / q < 10 ^ n] *)
Definition below_pow10 (p q n : Z) : bool :=
  if 0 <=? n then p <? 10 ^ n * q else p * 10 ^ (- n) <? q.

Fixpoint search_exponent (fuel : nat) (p q n : Z) : Z :=
  match fuel with
  | O => n
  | S f => if below_pow10 p q n then n else search_exponent f p q (n + 1)
  end.

(** The [n] with [10 ^ (n - 1) <= m * 2 ^ e < 10 ^ n]. *)
Definition decimal_exponent (m : positive) (e : Z) : Z :=
  let '(p, q) := fraction_of m e in
  let b := Zpos (digits2_pos m) + e in
  search_exponent (Z.to_nat (Z.abs b) + 2) p q (Z.min (b - 1) 0).

(** The [k]-digit integers [s] next to [(p / q) / 10 ^ (n - k)] for which
    [s * 10 ^ (n - k)] reads back as [x]; the nearer one when both do, the even
    one on a tie.  The result is [(s, n)], with [n] one more when [s] would
    be [10 ^ k]. *)
Definition shortest_at (x : number) (p q n k : Z) : option (Z * Z) :=
  let '(num, den) :=
    if 0 <=? n - k then (p, q * 10 ^ (n - k)) else (p * 10 ^ (k - n), q) in
  let lo := num / den in
  let r := num mod den in
  let hi := lo + 1 in
  let back s := strict_eq (of_decimal false s (n - k)) x in
  let norm s := if s =? 10 ^ k then (10 ^ (k - 1), n + 1) else (s, n) in
  if r =? 0 then Some (lo, n)
  else
    match back lo, back hi with
    | true, true =>
        match 2 * r ?= den with
        | Lt => Some (lo, n)
        | Gt => Some (norm hi)
        | Eq => Some (if Z.even lo then (lo, n) else norm hi)
        end
    | true, false => Some (lo, n)
    | false, true => Some (norm hi)
    | false, false => None
    end.

Fixpoint shortest_from (fuel : nat) (x : number) (p q n k : Z) : Z * Z :=
  match fuel with
  | O => (let '(num, den) :=
            if 0 <=? n - k then (p, q * 10 ^ (n - k)) else (p * 10 ^ (k - n), q)
          in num / den, n)
  | S f =>
      match shortest_at x p q n k with
      | Some r => r
      | None => shortest_from f x p q n (k + 1)
      end
  end.

(** The digits [s] (as few as possible) and the exponent [n] of the finite
    positive number [m * 2 ^ e]. *)
Definition shortest (m : positive) (e : Z) : string * Z :=
  let '(p, q) := fraction_of m e in
  let '(s, n) :=
    shortest_from 17 (S754_finite false m e) p q (decimal_exponent m e) 1 in
  (digits_of s, n).

Definition zeros (n : Z) : string := repeat_char "0" (Z.to_nat n).

Definition format_digits (ds : string) (n : Z) : string :=
  let k := Z.of_nat (String.length ds) in
  if (k <=? n) && (n <=? 21) then
    let z := zeros (n - k) in (ds ++ z)%string
  else if (0 <? n) && (n <=? 21) then
    let i := Z.to_nat n in (take i ds ++ "." ++ drop i ds)%string
  else if (-6 <? n) && (n <=? 0) then
    let z := zeros (- n) in ("0." ++ z ++ ds)%string
  else
    let e := n - 1 in
    let mark := if e <? 0 then "e-" else "e+" in
    let tail := (mark ++ digits_of (Z.abs e))%string in
    if k =? 1 then (ds ++ tail)%string
    else (take 1 ds ++ "." ++ drop 1 ds ++ tail)%string.

Definition toString (x : number) : string :=
  match x with
  | S754_nan => "NaN"
  | S754_zero _ => "0"
  | S754_infinity s => if s then "-Infinity" else "Infinity"
  | S754_finite s m e =>
      let '(ds, n) := shortest m e in
      ((if s then "-" else "") ++ format_digits ds n)%string
  end.

(** *** [x.toFixed(f)] *)

Definition toFixed (f : Z) (x : number) : string :=
  match x with
  | S754_finite s m e =>
      let '(p, q) := fraction_of m e in
      if 10 ^ 21 * q <=? p then toString x
      else
        let n := (2 * p * 10 ^ f + q) / (2 * q) in
        let ds := digits_of n in
        let k := Z.of_nat (String.length ds) in
        let pad := zeros (f + 1 - k) in
        let ds' := if k <=? f then (pad ++ ds)%string else ds in
        let i := Z.to_nat (Z.max k (f + 1) - f) in
        let body :=
          if f =? 0 then ds' else (take i ds' ++ "." ++ drop i ds')%string in
        ((if s then "-" else "") ++ body)%string
  | S754_zero _ =>
      if f =? 0 then "0" else String "0" (String "." (zeros f))
  | _ => toString x
  end.

(** *** [s.replace(/\.?0+$/, "")]

    The pattern matches an optional point followed by one or more zeros that
    run to the end of the string; the leftmost match is removed. *)

Definition all_zeros (s : string) : bool :=
  match s with
  | EmptyString => false
  | _ => all_chars (fun c => code c =? 48) s
  end.

Definition point_zeros (s : string) : bool :=
  all_zeros s || match s with String "." t => all_zeros t | _ => false end.

Fixpoint strip_zero_tail (s : string) : string :=
  if point_zeros s then EmptyString
  else
    match s with
    | EmptyString => EmptyString
    | String c t => String c (strip_zero_tail t)
    end.

End JS.

(** ** The calculator: [src/app/(tabs)/index.tsx] *)

Module Calc.
Import JS.

Inductive Op : Type := Plus | Minus | Times | Divide.

Inductive Key : Type :=
  | KC | KSign | KPercent | KDivide
  | K7 | K8 | K9 | KTimes
  | K4 | K5 | K6 | KMinus
  | K1 | K2 | K3 | KPlus
  | K0 | KDot | KEquals.

Record State : Type := mkState {
  display : string;
  acc : option number;
  op : option Op;
  entering : bool;
  justEvaluated : bool
}.

Inductive Action : Type :=
  | DIGIT (digit : string)
  | DOT
  | CLEAR
  | TOGGLE_SIGN
  | PERCENT
  | OP (o : Op)
  | EQUALS.

Definition initialState : State :=
  {| display := "0"; acc := None; op := None;
     entering := true; justEvaluated := false |}.

Definition toNumber (display : string) : number :=
  let n := Number display in
  if isFinite n then n else zero.

Definition formatNumber (n : number) : string :=
  if negb (isFinite n) then "Error"
  else
    let n := if is_neg_zero n then zero else n in
    let s := toString n in
    if includes "e" s then s
    else if includes "." s then strip_zero_tail (toFixed 10 n)
    else s.

Definition applyOp (a b : number) (o : Op) : number :=
  match o with
  | Plus => add a b
  | Minus => sub a b
  | Times => mul a b
  | Divide => if strict_eq b zero then NaN else div a b
  end.

Definition is_none {A : Type} (x : option A) : bool :=
  match x with None => true | Some _ => false end.

Definition reducer (state : State) (action : Action) : State :=
  let cur := toNumber (display state) in
  match action with
  | CLEAR => initialState
  | DIGIT digit =>
      let startFresh :=
        justEvaluated state && is_none (op state) && is_none (acc state) in
      if negb (entering state) || startFresh then
        {| display := digit; acc := acc state; op := op state;
           entering := true; justEvaluated := false |}
      else if String.eqb (display state) "0" then
        {| display := digit; acc := acc state; op := op state;
           entering := entering state; justEvaluated := false |}
      else
        {| display := display state ++ digit; acc := acc state; op := op state;
           entering := entering state; justEvaluated := false |}
  | DOT =>
      let startFresh :=
        justEvaluated state && is_none (op state) && is_none (acc state) in
      if negb (entering state) || startFresh then
        {| display := "0."; acc := acc state; op := op state;
           entering := true; justEvaluated := false |}
      else if includes "." (display state) then state
      else
        {| display := display state ++ "."; acc := acc state; op := op state;
           entering := entering state; justEvaluated := false |}
  | TOGGLE_SIGN =>
      if String.eqb (display state) "0" then state
      else
        let n := neg cur in
        {| display := formatNumber n; acc := acc state; op := op state;
           entering := entering state; justEvaluated := false |}
  | PERCENT =>
      let n := div cur (of_Z 100) in
      {| display := formatNumber n; acc := acc state; op := op state;
         entering := entering state; justEvaluated := false |}
  | OP o =>
      match op state, acc state, entering state with
      | Some pending, Some a, true =>
          let nextAcc := applyOp a cur pending in
          {| display := formatNumber nextAcc; acc := Some nextAcc; op := Some o;
             entering := false; justEvaluated := false |}
      | _, _, _ =>
          let nextAcc := match acc state with Some a => a | None => cur end in
          {| display := display state; acc := Some nextAcc; op := Some o;
             entering := false; justEvaluated := false |}
      end
  | EQUALS =>
      match op state, acc state with
      | Some pending, Some a =>
          let result := applyOp a cur pending in
          {| display := formatNumber result; acc := None; op := None;
             entering := false; justEvaluated := true |}
      | _, _ =>
          {| display := display state; acc := acc state; op := op state;
             entering := false; justEvaluated := true |}
      end
  end.

(** [onKeyPress]: the action that a key of the pad dispatches. *)
Definition onKeyPress (k : Key) : Action :=
  match k with
  | KC => CLEAR
  | KSign => TOGGLE_SIGN
  | KPercent => PERCENT
  | KDot => DOT
  | KEquals => EQUALS
  | KPlus => OP Plus
  | KMinus => OP Minus
  | KTimes => OP Times
  | KDivide => OP Divide
  | K0 => DIGIT "0" | K1 => DIGIT "1" | K2 => DIGIT "2" | K3 => DIGIT "3"
  | K4 => DIGIT "4" | K5 => DIGIT "5" | K6 => DIGIT "6" | K7 => DIGIT "7"
  | K8 => DIGIT "8" | K9 => DIGIT "9"
  end.

(** [useReducer(reducer, initialState)]: the state after a list of key
    presses. *)
Definition press (s : State) (k : Key) : State := reducer s (onKeyPress k).

Definition run (ks : list Key) : State := fold_left press ks initialState.

End Calc.

(** ** The VIN text utilities: [src/app/(tabs)/explore.tsx] *)

Module Vin.
Import JS.

(** The character class [[A-Z0-9]] *)
Definition is_vin_char (c : ascii) : bool := is_upper c || is_digit c.

(** The character class [[IOQ]] *)
Definition is_ioq (c : ascii) : bool :=
  (code c =? 73) || (code c =? 79) || (code c =? 81).

(** [input.trim().toUpperCase().replace(/[^A-Z0-9]/g, "")] *)
Definition normalizeVin (input : string) : string :=
  filter_chars is_vin_char (toUpperCase (trim input)).

Definition length_error : string := "VIN must be exactly 17 characters.".
Definition letter_error : string := "VIN cannot contain I, O, or Q.".

(** The result is [string | null]: [None] is [null]. *)
Definition validateVin (v : string) : option string :=
  if (String.length v =? 0)%nat then None
  else if negb (String.length v =? 17)%nat then Some length_error
  else if any_char is_ioq v then Some letter_error
  else None.

(** [s.split(/\s+/)]: the pieces between the runs of white space; [sep] says
    that the character before was white space. *)
Fixpoint split_spaces (sep : bool) (s : string) : list string :=
  match s with
  | EmptyString => [EmptyString]
  | String c t =>
      if is_space c then
        if sep then split_spaces true t else EmptyString :: split_spaces true t
      else
        match split_spaces false t with
        | p :: ps => String c p :: ps
        | [] => [String c EmptyString]
        end
  end.

(** [Boolean(s)] for a string: it is not the empty one. *)
Definition truthy (s : string) : bool :=
  match s with EmptyString => false | _ => true end.

(** The loop [for (const c of candidates)] *)
Fixpoint first_candidate (candidates : list string) : option string :=
  match candidates with
  | [] => None
  | c :: rest =>
      if (String.length c =? 17)%nat && negb (any_char is_ioq c) then Some c
      else first_candidate rest
  end.

(** The loop [for (let i = 0; i + 17 <= joined.length; i++)], with [n] the
    number of rounds that are left. *)
Fixpoint window_loop (joined : string) (n i : nat) : option string :=
  match n with
  | O => None
  | S n' =>
      let sub := slice i (i + 17) joined in
      if negb (any_char is_ioq sub) then Some sub
      else window_loop joined n' (S i)
  end.

Definition extractVinFromText (text : string) : option string :=
  let cleaned :=
    map_chars (fun c => if is_vin_char c then c else " "%char) (toUpperCase text) in
  let candidates := filter truthy (split_spaces false cleaned) in
  match first_candidate candidates with
  | Some c => Some c
  | None =>
      let joined := filter_chars (fun c => negb (is_space c)) cleaned in
      window_loop joined (String.length joined - 16) 0
  end.

End Vin.

(** ** The extraction of a VIN as the specification words it *)

Module VinSpec.
Import JS Vin.

Definition flush (cur : string) : list string :=
  match cur with EmptyString => [] | _ => [cur] end.

(** The alphanumeric tokens of an upper-cased text: the maximal runs of
    characters of [[A-Z0-9]]; every other character separates.  [cur] is the
    token being read. *)
Fixpoint tokens_from (cur : string) (s : string) : list string :=
  match s with
  | EmptyString => flush cur
  | String c t =>
      if is_vin_char c then tokens_from (cur ++ String c EmptyString) t
      else flush cur ++ tokens_from EmptyString t
  end.

Definition tokens (s : string) : list string := tokens_from EmptyString s.

(** A string of exactly 17 characters, none of them I, O or Q. *)
Definition qualifies (t : string) : bool :=
  (String.length t =? 17)%nat && negb (any_char is_ioq t).

(** All the tokens in a row, with nothing between them. *)
Definition join (l : list string) : string := fold_right append EmptyString l.

(** The first substring of 17 characters, from the left, that qualifies. *)
Fixpoint first_window (s : string) : option string :=
  match s with
  | EmptyString => None
  | String _ t =>
      if (17 <=? String.length s)%nat && qualifies (take 17 s) then Some (take 17 s)
      else first_window t
  end.

Definition extractVin (text : string) : option string :=
  let toks := tokens (toUpperCase text) in
  match find qualifies toks with
  | Some t => Some t
  | None => first_window (join toks)
  end.

(** The letters and digits of ASCII, of either case. *)
Definition is_alnum (c : ascii) : bool := is_upper c || is_lower c || is_digit c.

(** [c] is one of the characters of [s]. *)
Definition contains (c : ascii) (s : string) : Prop :=
  In c (list_ascii_of_string s).

End VinSpec.

(** ** Names for parts of [extractVinFromText] *)

Module VinParts.
Import JS Vin.

(** What [replace(/[^A-Z0-9]/g, " ")] does to a character, and what
    [replace(/\s+/g, "")] does to a string. *)
Definition blank (c : ascii) : ascii := if is_vin_char c then c else " "%char.

Definition squeeze (s : string) : string :=
  filter_chars (fun c => negb (is_space c)) s.

(** [cur] put before the first piece of a list. *)
Definition head_append (cur : string) (l : list string) : list string :=
  match l with
  | p :: ps => (cur ++ p)%string :: ps
  | [] => [cur]
  end.

End VinParts.

(** ** What a display can be

    A numeric literal is an optional minus sign, digits, an optional
    fraction (a point and digits) and an optional exponent ([e], a sign and
    digits): the strings that [formatNumber] gives for finite numbers and
    that the digit keys extend.  A recogniser reads a display from left to
    right. *)

Module Display.
Import JS.

Inductive Parse : Type :=
  | Start      (* nothing read *)
  | Signed     (* a minus sign *)
  | Int        (* digits *)
  | Point      (* digits and a point *)
  | Frac       (* digits, a point and digits *)
  | Mark       (* an [e] after digits *)
  | MarkSign   (* and its sign *)
  | Exp        (* and its digits: an integer with an exponent *)
  | FMark      (* an [e] after a fraction *)
  | FMarkSign
  | FExp       (* a fraction with an exponent *)
  | ExpPoint   (* an integer with an exponent, and a point *)
  | ExpTail    (* an integer with an exponent, a point and digits *)
  | Dead.

Definition is_sign (c : ascii) : bool := (code c =? 43) || (code c =? 45).

Definition step (st : Parse) (c : ascii) : Parse :=
  match st with
  | Start => if code c =? 45 then Signed else if is_digit c then Int else Dead
  | Signed => if is_digit c then Int else Dead
  | Int =>
      if is_digit c then Int
      else if code c =? 46 then Point
      else if code c =? 101 then Mark
      else Dead
  | Point => if is_digit c then Frac else Dead
  | Frac =>
      if is_digit c then Frac
      else if code c =? 101 then FMark
      else Dead
  | Mark => if is_sign c then MarkSign else Dead
  | MarkSign => if is_digit c then Exp else Dead
  | Exp =>
      if is_digit c then Exp
      else if code c =? 46 then ExpPoint
      else Dead
  | FMark => if is_sign c then FMarkSign else Dead
  | FMarkSign => if is_digit c then FExp else Dead
  | FExp => if is_digit c then FExp else Dead
  | ExpPoint => if is_digit c then ExpTail else Dead
  | ExpTail => if is_digit c then ExpTail else Dead
  | Dead => Dead
  end.

Fixpoint parse_from (st : Parse) (s : string) : Parse :=
  match s with
  | EmptyString => st
  | String c t => parse_from (step st c) t
  end.

Definition parse : string -> Parse := parse_from Start.

(** The whole string is a numeric literal. *)
Definition literal_end (st : Parse) : bool :=
  match st with
  | Int | Frac | Exp | FExp => true
  | _ => false
  end.

Definition literal (s : string) : bool := literal_end (parse s).



(** The displays of the calculator: a numeric literal, or a literal without
    a point followed by a point and any number of digits, or "Error". *)
Definition typed_end (st : Parse) : bool :=
  match st with
  | Int | Frac | Exp | FExp | Point | ExpPoint | ExpTail => true
  | _ => false
  end.


(** A point has been read. *)
Definition pointed (st : Parse) : bool :=
  match st with
  | Point | Frac | FMark | FMarkSign | FExp | ExpPoint | ExpTail => true
  | _ => false
  end.

(** A string of digits, at least one. *)
Definition digits1 (s : string) : bool :=
  match s with
  | EmptyString => false
  | _ => all_chars is_digit s
  end.

(** The state after a digit. *)
Definition digit_step (st : Parse) : Parse :=
  match st with
  | Start | Signed | Int => Int
  | Point | Frac => Frac
  | MarkSign | Exp => Exp
  | FMarkSign | FExp => FExp
  | ExpPoint | ExpTail => ExpTail
  | Mark | FMark | Dead => Dead
  end.

(** An [e] has been read. *)
Definition marked (st : Parse) : bool :=
  match st with
  | Mark | MarkSign | Exp | FMark | FMarkSign | FExp | ExpPoint | ExpTail => true
  | _ => false
  end.

End Display.

(** ** Sequences of actions and of keys *)

Module Runs.
Import JS Calc Display.

(** The state after a list of actions, from the initial state. *)
Definition steps (actions : list Action) : State :=
  fold_left reducer actions initialState.

(** The key of an operator, and the digit that a digit key stands for. *)
Definition opKey (o : Op) : Key :=
  match o with
  | Plus => KPlus | Minus => KMinus | Times => KTimes | Divide => KDivide
  end.

Definition keyDigit (k : Key) : option Z :=
  match k with
  | K0 => Some 0 | K1 => Some 1 | K2 => Some 2 | K3 => Some 3 | K4 => Some 4
  | K5 => Some 5 | K6 => Some 6 | K7 => Some 7 | K8 => Some 8 | K9 => Some 9
  | _ => None
  end.

(** The keys [5], [÷], [0]: a division by zero is pending. *)
Definition five_by_zero : list Key := [K5; KDivide; K0].


(** What holds of every state that the keys lead to. *)
Definition well_shown (s : State) : Prop :=
  (display s = "Error" /\ entering s = false) \/
  typed_end (parse (display s)) = true.

End Runs.

(** ** The recents list and the Decode button: [src/app/(tabs)/explore.tsx] *)

Module Lookup.
Import JS Vin.

Definition MAX_RECENTS : nat := 10.

(** [pushRecent]: the list [next] that it puts in the state and saves,
    [[v, ...recents.filter((x) => x !== v)].slice(0, MAX_RECENTS)]. *)
Definition pushRecent (recents : list string) (v : string) : list string :=
  firstn MAX_RECENTS (v :: filter (fun x => negb (String.eqb x v)) recents).


(** [if (vinError)] for a [string | null]. *)
Definition is_error (e : option string) : bool :=
  match e with
  | Some s => truthy s
  | None => false
  end.

(** [onDecodePress], with [vin] and [vinError] as the screen computes them
    from the text of the input: the VIN that [decodeVin] is called with, or
    [None] when the function returns before the call. *)
Definition onDecodePress (vinInput : string) : option string :=
  let vin := normalizeVin vinInput in
  let vinError := validateVin vin in
  if is_error vinError then None
  else if negb (String.length vin =? 17)%nat then None
  else Some vin.

(** [x !== v] *)
Definition others (v x : string) : bool := negb (String.eqb x v).


End Lookup.

(** ** Entering numbers and chains of operations *)

Module Entry.
Import JS Calc Runs.

(** The keys [0] to [9], and those with the point. *)
Definition digitKey (k : Key) : bool :=
  match keyDigit k with Some _ => true | None => false end.

Definition entryKey (k : Key) : bool :=
  digitKey k || match k with KDot => true | _ => false end.

(** The character that a digit key sends. *)
Definition keyText (k : Key) : string :=
  match onKeyPress k with DIGIT d => d | _ => EmptyString end.

(** The characters of a list of keys in a row. *)
Definition typed (ks : list Key) : string :=
  fold_right (fun k s => (keyText k ++ s)%string) EmptyString ks.

(** A string without the zeros at its start, but for its last character. *)
Fixpoint no_leading_zeros (s : string) : string :=
  match s with
  | EmptyString => EmptyString
  | String c t =>
      match t with
      | EmptyString => s
      | _ => if code c =? 48 then no_leading_zeros t else s
      end
  end.

(** What a digit or the point makes of the display of a number that is
    being entered. *)
Definition enter (d : string) (k : Key) : string :=
  match onKeyPress k with
  | DIGIT c => if String.eqb d "0" then c else (d ++ c)%string
  | DOT => if includes "." d then d else (d ++ ".")%string
  | _ => d
  end.

(** The keys of an operand: digits and points, at least one key. *)
Definition operandKeys (ks : list Key) : bool :=
  match ks with
  | [] => false
  | _ => forallb entryKey ks
  end.

(** The number that the calculator reads after the keys [ks]. *)
Definition operand (ks : list Key) : number := toNumber (display (run ks)).

(** A chain is a list of operators, each with the keys of its second
    operand: its keys, and its value from left to right. *)
Definition chainKeys (chain : list (Op * list Key)) : list Key :=
  flat_map (fun c => opKey (fst c) :: snd c) chain.

Definition chainValue (x : number) (chain : list (Op * list Key)) : number :=
  fold_left (fun a c => applyOp a (operand (snd c)) (fst c)) chain x.

(** The number of points of a string. *)
Fixpoint points (s : string) : nat :=
  match s with
  | EmptyString => 0%nat
  | String c t => if code c =? 46 then S (points t) else points t
  end.

End Entry.

(** ** Rounding to binary64: the results are numbers of the format *)

Module Rounding.
Import JS Display.

Lemma digits2_pos_bounds (p : positive) :
  2 ^ (Zpos (digits2_pos p) - 1) <= Zpos p < 2 ^ Zpos (digits2_pos p).
Proof.
  induction p as [p IH|p IH|]; simpl digits2_pos;
    try (rewrite Pos2Z.inj_succ;
         replace (Z.succ (Zpos (digits2_pos p)) - 1) with (Z.succ (Zpos (digits2_pos p) - 1)) by lia;
         rewrite !Z.pow_succ_r by lia; lia).
  simpl. lia.
Qed.

Lemma Zdigits2_nonneg (m : Z) : 0 <= Zdigits2 m.
Proof. destruct m; simpl; lia. Qed.

Lemma Zdigits2_bounds (m : Z) :
  0 < m -> 2 ^ (Zdigits2 m - 1) <= m < 2 ^ Zdigits2 m.
Proof. destruct m as [|p|p]; try lia. intros _. apply digits2_pos_bounds. Qed.

Lemma Zdigits2_le (m k : Z) : 0 <= m -> 0 <= k -> m < 2 ^ k -> Zdigits2 m <= k.
Proof.
  intros Hm Hk H. destruct (Z.eq_dec m 0) as [->|Hz]; [simpl; lia|].
  pose proof (Zdigits2_bounds m ltac:(lia)) as [L _].
  destruct (Z_le_gt_dec (Zdigits2 m) k) as [|G]; [assumption|].
  assert (2 ^ k <= 2 ^ (Zdigits2 m - 1)) by (apply Z.pow_le_mono_r; lia). lia.
Qed.

Lemma Zdigits2_ge (m k : Z) : 0 < m -> 2 ^ (k - 1) <= m -> k <= Zdigits2 m.
Proof.
  intros Hm H. pose proof (Zdigits2_bounds m Hm) as [_ U].
  pose proof (Zdigits2_nonneg m).
  destruct (Z_le_gt_dec k (Zdigits2 m)) as [|G]; [assumption|].
  assert (2 ^ Zdigits2 m <= 2 ^ (k - 1)) by (apply Z.pow_le_mono_r; lia). lia.
Qed.

(** *** Shifting to the right *)

Lemma shr_1_m (mrs : shr_record) :
  0 <= shr_m mrs -> shr_m (shr_1 mrs) = shr_m mrs / 2.
Proof.
  destruct mrs as [m r s]. simpl. intros H.
  destruct m as [|[p|p|]|p]; simpl; try lia; try reflexivity.
  - rewrite Pos2Z.inj_xI. apply Z.div_unique with (r := 1); lia.
  - rewrite Pos2Z.inj_xO. apply Z.div_unique with (r := 0); lia.
Qed.

Lemma iter_shr_m (p : positive) (mrs : shr_record) :
  0 <= shr_m mrs ->
  shr_m (iter_pos shr_1 p mrs) = shr_m mrs / 2 ^ Zpos p.
Proof.
  revert mrs. induction p as [p IH|p IH|]; intros mrs H; simpl iter_pos.
  - assert (H1 : 0 <= shr_m (shr_1 mrs)) by (rewrite shr_1_m by lia; apply Z.div_pos; lia).
    assert (H2 : 0 <= shr_m (iter_pos shr_1 p (shr_1 mrs)))
      by (rewrite IH by lia; apply Z.div_pos; lia).
    rewrite IH, IH, shr_1_m by assumption.
    rewrite !Z.div_div by lia. f_equal.
    replace (Zpos p~1) with (1 + Zpos p + Zpos p) by lia.
    rewrite !Z.pow_add_r by lia. change (2 ^ 1) with 2. ring.
  - assert (H2 : 0 <= shr_m (iter_pos shr_1 p mrs))
      by (rewrite IH by lia; apply Z.div_pos; lia).
    rewrite IH, IH by assumption.
    rewrite !Z.div_div by lia. f_equal.
    replace (Zpos p~0) with (Zpos p + Zpos p) by lia.
    rewrite !Z.pow_add_r by lia. change (2 ^ 1) with 2. ring.
  - rewrite shr_1_m by assumption. reflexivity.
Qed.

Lemma shr_spec (mrs : shr_record) (e n : Z) :
  0 <= shr_m mrs -> 0 <= n ->
  shr_m (fst (shr mrs e n)) = shr_m mrs / 2 ^ n /\ snd (shr mrs e n) = e + n.
Proof.
  intros H Hn. destruct n as [|p|p]; simpl; try lia.
  - rewrite Z.div_1_r. lia.
  - split; [apply iter_shr_m; assumption | reflexivity].
Qed.

Lemma shr_nonneg (mrs : shr_record) (e n : Z) :
  0 <= shr_m mrs -> 0 <= shr_m (fst (shr mrs e n)).
Proof.
  intros H. destruct n as [|p|p]; simpl; try assumption.
  rewrite iter_shr_m by assumption. apply Z.div_pos; lia.
Qed.

Lemma shr_record_of_loc_m (m : Z) (l : location) :
  shr_m (shr_record_of_loc m l) = m.
Proof. destruct l as [|[]]; reflexivity. Qed.

Lemma fexp_lower (e : Z) : e - 53 <= fexp prec emax e /\ -1074 <= fexp prec emax e.
Proof. unfold fexp, emin, prec, emax. lia. Qed.

Lemma fexp_small (e : Z) : e <= 53 - 1074 -> fexp prec emax e = -1074.
Proof. unfold fexp, emin, prec, emax. lia. Qed.

Lemma fexp_large (e : Z) : 53 - 1074 <= e -> fexp prec emax e = e - 53.
Proof. unfold fexp, emin, prec, emax. lia. Qed.

Lemma shr_fexp_nonneg (m e : Z) (l : location) :
  0 <= m -> 0 <= shr_m (fst (shr_fexp prec emax m e l)).
Proof.
  intros H. unfold shr_fexp. apply shr_nonneg.
  rewrite shr_record_of_loc_m. assumption.
Qed.

(** The first shift brings the mantissa to 53 bits at most. *)
Lemma shr_fexp_first (m e : Z) (l : location) :
  0 <= m -> e <= fexp prec emax (Zdigits2 m + e) ->
  0 <= shr_m (fst (shr_fexp prec emax m e l)) < 2 ^ 53 /\
  snd (shr_fexp prec emax m e l) = fexp prec emax (Zdigits2 m + e).
Proof.
  intros Hm He. unfold shr_fexp.
  set (f := fexp prec emax (Zdigits2 m + e)) in *.
  destruct (shr_spec (shr_record_of_loc m l) e (f - e)) as [E1 E2];
    [rewrite shr_record_of_loc_m; lia | lia |].
  rewrite E1, E2, shr_record_of_loc_m. split; [|lia].
  split; [apply Z.div_pos; lia|].
  apply Z.div_lt_upper_bound; [lia|].
  destruct (Z.eq_dec m 0) as [->|Hz]; [lia|].
  pose proof (Zdigits2_bounds m ltac:(lia)) as [_ U].
  pose proof (fexp_lower (Zdigits2 m + e)) as [F _]. fold f in F.
  rewrite <- Z.pow_add_r by lia.
  assert (2 ^ Zdigits2 m <= 2 ^ (f - e + 53)) by (apply Z.pow_le_mono_r; lia).
  lia.
Qed.

Lemma round_nearest_even_bounds (m : Z) (l : location) :
  m <= round_nearest_even m l <= m + 1.
Proof. destruct l as [|[]]; simpl; try lia. destruct (Z.even m); lia. Qed.

(** The second shift takes a carry of the rounding back. *)
Lemma shr_fexp_second (m e : Z) :
  0 <= m <= 2 ^ 53 -> -1074 <= e ->
  0 <= shr_m (fst (shr_fexp prec emax m e loc_Exact)) < 2 ^ 53 /\
  snd (shr_fexp prec emax m e loc_Exact) <= e + 1.
Proof.
  intros Hm He. unfold shr_fexp. simpl shr_record_of_loc.
  destruct (Z_lt_le_dec m (2 ^ 53)) as [L|G].
  - assert (D : Zdigits2 m <= 53) by (apply Zdigits2_le; lia).
    assert (F : fexp prec emax (Zdigits2 m + e) - e <= 0)
      by (unfold fexp, emin, prec, emax; lia).
    destruct (fexp prec emax (Zdigits2 m + e) - e) as [|p|p]; simpl; lia.
  - assert (m = 2 ^ 53) by lia. subst m.
    replace (Zdigits2 (2 ^ 53)) with 54 by reflexivity.
    replace (fexp prec emax (54 + e) - e) with 1
      by (unfold fexp, emin, prec, emax; lia).
    simpl. lia.
Qed.

Lemma binary_round_aux_not_nan (sx : bool) (mx ex : Z) (lx : location) :
  0 <= mx -> binary_round_aux prec emax sx mx ex lx <> S754_nan.
Proof.
  intros Hm. unfold binary_round_aux.
  pose proof (shr_fexp_nonneg mx ex lx Hm) as H1.
  destruct (shr_fexp prec emax mx ex lx) as [mrs' e']. simpl in H1.
  pose proof (round_nearest_even_bounds (shr_m mrs') (loc_of_shr_record mrs')) as [R _].
  pose proof (shr_fexp_nonneg (round_nearest_even (shr_m mrs') (loc_of_shr_record mrs'))
                e' loc_Exact ltac:(lia)) as H2.
  destruct (shr_fexp prec emax _ e' loc_Exact) as [mrs'' e'']. simpl in H2.
  destruct (shr_m mrs'') as [|p|p]; try discriminate; [|lia].
  destruct (e'' <=? emax - prec); discriminate.
Qed.

Lemma binary_round_aux_bounded (sx : bool) (mx ex : Z) (lx : location) :
  0 <= mx -> ex <= fexp prec emax (Zdigits2 mx + ex) ->
  bounded64 (binary_round_aux prec emax sx mx ex lx) /\
  (fexp prec emax (Zdigits2 mx + ex) <= 970 ->
   isFinite (binary_round_aux prec emax sx mx ex lx) = true).
Proof.
  intros Hm He. unfold binary_round_aux.
  pose proof (shr_fexp_first mx ex lx Hm He) as [H1 E1].
  destruct (shr_fexp prec emax mx ex lx) as [mrs' e']. simpl in H1, E1.
  pose proof (round_nearest_even_bounds (shr_m mrs') (loc_of_shr_record mrs')) as R.
  pose proof (fexp_lower (Zdigits2 mx + ex)) as [_ F].
  pose proof (shr_fexp_second (round_nearest_even (shr_m mrs') (loc_of_shr_record mrs'))
                e' ltac:(lia) ltac:(lia)) as [H2 E2].
  destruct (shr_fexp prec emax _ e' loc_Exact) as [mrs'' e'']. simpl in H2, E2.
  destruct (shr_m mrs'') as [|p|p] eqn:Em; try lia.
  - split; [exact I | reflexivity].
  - destruct (Z.leb_spec e'' (emax - prec)) as [L|L].
    + split; [|reflexivity]. simpl. split; [|unfold emax, prec in L; lia].
      change (Zpos (digits2_pos p)) with (Zdigits2 (Zpos p)).
      apply Zdigits2_le; lia.
    + split; [exact I|]. unfold emax, prec in L. lia.
Qed.

(** *** Division *)

Lemma Zdigits2_pos (m : Z) : 0 < m -> 1 <= Zdigits2 m.
Proof. intros H. apply Zdigits2_ge; [assumption | simpl; lia]. Qed.

Lemma div_core_spec (m1 e1 m2 e2 : Z) :
  0 < m1 -> 0 < m2 ->
  forall q e' l, SFdiv_core_binary prec emax m1 e1 m2 e2 = (q, e', l) ->
  0 <= q /\
  e' <= fexp prec emax (Zdigits2 q + e') /\
  (Zdigits2 m1 + e1 - (Zdigits2 m2 + e2) <= 1022 ->
   fexp prec emax (Zdigits2 q + e') <= 970).
Proof.
  intros H1 H2 q e' l. unfold SFdiv_core_binary.
  set (A := Zdigits2 m1 + e1 - (Zdigits2 m2 + e2)).
  set (e0 := Z.min (fexp prec emax A) (e1 - e2)).
  set (s := e1 - e2 - e0).
  assert (Hs : 0 <= s) by (unfold s, e0; lia).
  set (m' := match s with Zpos _ => Z.shiftl m1 s | Z0 => m1 | Zneg _ => 0 end).
  assert (Em : m' = m1 * 2 ^ s).
  { unfold m'. destruct s as [|p|p]; [simpl; lia | apply Z.shiftl_mul_pow2; lia | lia]. }
  pose proof (Z_div_mod m' m2 ltac:(lia)) as D.
  destruct (Z.div_eucl m' m2) as [q0 r0]. destruct D as [D R].
  intros E. injection E as <- <- _.
  pose proof (Zdigits2_bounds m1 H1) as [L1 U1].
  pose proof (Zdigits2_bounds m2 H2) as [L2 U2].
  pose proof (Zdigits2_pos m1 H1) as P1.
  pose proof (Zdigits2_pos m2 H2) as P2.
  assert (Ps : 0 < 2 ^ s) by (apply Z.pow_pos_nonneg; lia).
  assert (Hq : 0 <= q0) by nia.
  split; [exact Hq|]. split.
  - destruct (Z_le_gt_dec e0 (-1074)) as [Le|Gt].
    + pose proof (fexp_lower (Zdigits2 q0 + e0)). lia.
    + assert (Ea : e0 <= A - 53)
        by (unfold e0 in *; unfold fexp, emin, prec, emax in *; lia).
      assert (Hpow : 2 ^ (Zdigits2 m2 + 52) <= 2 ^ (Zdigits2 m1 - 1 + s))
        by (apply Z.pow_le_mono_r; unfold s, A in *; lia).
      rewrite !Z.pow_add_r in Hpow by lia.
      assert (Q : 2 ^ 52 <= q0).
      { assert (m2 * 2 ^ 52 < m2 * (q0 + 1)) by nia. nia. }
      assert (53 <= Zdigits2 q0) by (apply Zdigits2_ge; [lia | exact Q]).
      pose proof (fexp_lower (Zdigits2 q0 + e0)). lia.
  - intros HA.
    assert (Zdigits2 q0 + e0 <= 1023); [|unfold fexp, emin, prec, emax; lia].
    destruct (Z.eq_dec q0 0) as [->|Hz].
    + simpl. unfold e0. unfold fexp, emin, prec, emax. lia.
    + assert (K : 0 <= Zdigits2 m1 + s - Zdigits2 m2 + 1).
      { destruct (Z_le_gt_dec 0 (Zdigits2 m1 + s - Zdigits2 m2 + 1)) as [|G]; [assumption|].
        assert (2 ^ (Zdigits2 m1 + s) <= 2 ^ (Zdigits2 m2 - 1))
          by (apply Z.pow_le_mono_r; lia).
        rewrite Z.pow_add_r in * by lia. nia. }
      assert (Zdigits2 q0 <= Zdigits2 m1 + s - Zdigits2 m2 + 1).
      { apply Zdigits2_le; [lia | lia |].
        assert (Hp : 2 ^ (Zdigits2 m1 + s) =
                     2 ^ (Zdigits2 m2 - 1) * 2 ^ (Zdigits2 m1 + s - Zdigits2 m2 + 1))
          by (rewrite <- Z.pow_add_r by lia; f_equal; lia).
        rewrite Z.pow_add_r in Hp by lia.
        assert (0 < 2 ^ (Zdigits2 m2 - 1)) by (apply Z.pow_pos_nonneg; lia).
        nia. }
      unfold s, A in *. lia.
Qed.

Lemma of_ratio_bounded (sgn : bool) (p q : Z) :
  0 < q -> bounded64 (of_ratio sgn p q).
Proof.
  intros Hq. unfold of_ratio. destruct p as [|p|p]; try exact I.
  destruct (SFdiv_core_binary prec emax (Zpos p) 0 q 0) as [[mz ez] lz] eqn:E.
  destruct (div_core_spec _ _ _ _ (Pos2Z.is_pos p) Hq _ _ _ E) as (H1 & H2 & _).
  apply binary_round_aux_bounded; assumption.
Qed.

Lemma of_decimal_bounded (sgn : bool) (m e : Z) : bounded64 (of_decimal sgn m e).
Proof.
  unfold of_decimal. destruct (Z.leb_spec 0 e); apply of_ratio_bounded; [lia|].
  apply Z.pow_pos_nonneg; lia.
Qed.

Lemma Number_bounded (text : string) : bounded64 (Number text).
Proof.
  assert (S : forall sgn t, bounded64 (parse_signed_decimal sgn t)).
  { intros sgn t. unfold parse_signed_decimal.
    destruct (String.eqb t "Infinity"); [exact I|].
    destruct (parse_unsigned_decimal t) as [[m e]|]; [apply of_decimal_bounded | exact I]. }
  assert (R : forall b t, bounded64 match parse_radix b t with
                                    | Some v => of_ratio false v 1
                                    | None => NaN
                                    end).
  { intros b t. destruct (parse_radix b t); [apply of_ratio_bounded; lia | exact I]. }
  unfold Number. destruct (trim text) as [|c t]; [exact I|].
  destruct c as [[] [] [] [] [] [] [] []]; try apply S.
  destruct t as [|c' t']; [apply S|].
  destruct c' as [[] [] [] [] [] [] [] []]; try apply S; apply R.
Qed.

(** Dividing a finite number of the format by a hundred gives a finite
    number. *)
Lemma div_hundred_finite (x : number) :
  bounded64 x -> isFinite x = true -> isFinite (div x (of_Z 100)) = true.
Proof.
  intros B F. destruct x as [s| |  |s m e]; try discriminate; [reflexivity|].
  change (of_Z 100) with (S754_finite false 7036874417766400 (-46)).
  unfold div, SFdiv.
  destruct (SFdiv_core_binary prec emax (Zpos m) e 7036874417766400 (-46))
    as [[mz ez] lz] eqn:E.
  destruct (div_core_spec _ _ _ _ (Pos2Z.is_pos m) (Pos2Z.is_pos _) _ _ _ E) as (H1 & H2 & H3).
  apply binary_round_aux_bounded; try assumption.
  apply H3. simpl in B. simpl Zdigits2. lia.
Qed.

(** A quotient of finite numbers is [NaN] for a zero divisor only. *)
Lemma div_finite_not_nan (a b : number) :
  isFinite a = true -> isFinite b = true -> strict_eq b zero = false ->
  div a b <> NaN.
Proof.
  intros Fa Fb Hb.
  destruct b as [sb| | |sb mb eb]; try discriminate.
  destruct a as [sa| | |sa ma ea]; try discriminate.
  unfold div, SFdiv.
  destruct (SFdiv_core_binary prec emax (Zpos ma) ea (Zpos mb) eb)
    as [[mz ez] lz] eqn:E.
  destruct (div_core_spec _ _ _ _ (Pos2Z.is_pos ma) (Pos2Z.is_pos mb) _ _ _ E) as (H1 & _).
  apply binary_round_aux_not_nan. exact H1.
Qed.

End Rounding.

(** ** What [toString], [toFixed] and [formatNumber] write *)

Module Format.
Import JS Calc Display.

Lemma digit_code (c : ascii) : is_digit c = true -> 48 <= code c <= 57.
Proof. unfold is_digit, between. lia. Qed.

Lemma step_digit (st : Parse) (c : ascii) :
  is_digit c = true -> step st c = digit_step st.
Proof.
  intros H. pose proof (digit_code c H) as B.
  destruct st; simpl; unfold is_sign; rewrite ?H;
    repeat match goal with
           | |- context [code c =? ?k] => destruct (Z.eqb_spec (code c) k); try lia
           end; reflexivity.
Qed.

Lemma digit_step_twice (st : Parse) : digit_step (digit_step st) = digit_step st.
Proof. destruct st; reflexivity. Qed.

Lemma parse_from_app (a b : string) (st : Parse) :
  parse_from st (a ++ b) = parse_from (parse_from st a) b.
Proof. revert st. induction a as [|c a IH]; intros st; simpl; [reflexivity | apply IH]. Qed.

Lemma parse_from_dead (s : string) : parse_from Dead s = Dead.
Proof. induction s; simpl; auto. Qed.

Lemma parse_all_digits (s : string) (st : Parse) :
  all_chars is_digit s = true ->
  parse_from st s = st \/ parse_from st s = digit_step st.
Proof.
  revert st. induction s as [|c s IH]; intros st H; simpl; [left; reflexivity|].
  simpl in H. apply andb_true_iff in H as [H1 H2]. right.
  rewrite (step_digit st c H1).
  destruct (IH (digit_step st) H2) as [E|E]; rewrite E;
    [|rewrite digit_step_twice]; reflexivity.
Qed.

Lemma parse_digits1 (s : string) (st : Parse) :
  digits1 s = true -> parse_from st s = digit_step st.
Proof.
  destruct s as [|c s]; [discriminate|]. unfold digits1. intros H. simpl.
  simpl in H. apply andb_true_iff in H as [H1 H2].
  rewrite (step_digit st c H1).
  destruct (parse_all_digits s (digit_step st) H2) as [E|E]; rewrite E;
    [|rewrite digit_step_twice]; reflexivity.
Qed.

(** *** Strings of digits *)

Lemma all_chars_app (f : ascii -> bool) (a b : string) :
  all_chars f (a ++ b) = all_chars f a && all_chars f b.
Proof. induction a as [|c a IH]; simpl; [|rewrite IH, andb_assoc]; reflexivity. Qed.

Lemma all_chars_take (f : ascii -> bool) (n : nat) (s : string) :
  all_chars f s = true -> all_chars f (take n s) = true.
Proof.
  revert s. induction n as [|n IH]; intros [|c s]; simpl; try reflexivity.
  intros H. apply andb_true_iff in H as [H1 H2]. rewrite H1, (IH s H2). reflexivity.
Qed.

Lemma all_chars_drop (f : ascii -> bool) (n : nat) (s : string) :
  all_chars f s = true -> all_chars f (drop n s) = true.
Proof.
  revert s. induction n as [|n IH]; intros [|c s]; simpl; try (intros H; exact H).
  intros H. apply andb_true_iff in H as [_ H2]. apply IH, H2.
Qed.

Lemma all_chars_zeros (n : Z) : all_chars is_digit (zeros n) = true.
Proof. unfold zeros. induction (Z.to_nat n); simpl; auto. Qed.

Lemma length_zeros (n : Z) : String.length (zeros n) = Z.to_nat n.
Proof. unfold zeros. induction (Z.to_nat n); simpl; auto. Qed.

Lemma length_app (a b : string) :
  String.length (a ++ b) = (String.length a + String.length b)%nat.
Proof. induction a as [|c a IH]; simpl; [|rewrite IH]; reflexivity. Qed.

Lemma length_drop (n : nat) (s : string) :
  String.length (drop n s) = (String.length s - n)%nat.
Proof. revert s. induction n as [|n IH]; intros [|c s]; simpl; auto. Qed.

Lemma digits1_intro (s : string) :
  all_chars is_digit s = true -> (0 < String.length s)%nat -> digits1 s = true.
Proof. destruct s; simpl; [lia | auto]. Qed.

Lemma digits1_all (s : string) : digits1 s = true -> all_chars is_digit s = true.
Proof. destruct s; [discriminate | auto]. Qed.

Lemma digits1_length (s : string) : digits1 s = true -> (0 < String.length s)%nat.
Proof. destruct s; [discriminate | simpl; lia]. Qed.

Lemma digits1_take (n : nat) (s : string) :
  digits1 s = true -> (0 < n)%nat -> digits1 (take n s) = true.
Proof.
  intros H Hn. destruct n as [|n]; [lia|]. destruct s as [|c s]; [discriminate|].
  apply (all_chars_take is_digit (S n) (String c s)), digits1_all, H.
Qed.

Lemma digits1_drop (n : nat) (s : string) :
  digits1 s = true -> (n < String.length s)%nat -> digits1 (drop n s) = true.
Proof.
  intros H Hn. apply digits1_intro.
  - apply all_chars_drop, digits1_all, H.
  - rewrite length_drop. lia.
Qed.

Lemma digit_char_digit (d : Z) : 0 <= d < 10 -> is_digit (digit_char d) = true.
Proof.
  intros H.
  assert (C : d = 0 \/ d = 1 \/ d = 2 \/ d = 3 \/ d = 4 \/
              d = 5 \/ d = 6 \/ d = 7 \/ d = 8 \/ d = 9) by lia.
  repeat (destruct C as [->|C]; [reflexivity|]). subst d. reflexivity.
Qed.

Lemma digits_fuel_digits1 (fuel : nat) (n : Z) (acc : string) :
  all_chars is_digit acc = true -> digits1 (digits_fuel fuel n acc) = true.
Proof.
  revert n acc. induction fuel as [|fuel IH]; intros n acc H; simpl.
  - rewrite digit_char_digit by (apply Z.mod_pos_bound; lia). exact H.
  - destruct (n <? 10).
    + simpl. rewrite digit_char_digit by (apply Z.mod_pos_bound; lia). exact H.
    + apply IH. simpl.
      rewrite digit_char_digit by (apply Z.mod_pos_bound; lia). exact H.
Qed.

Lemma digits_of_digits1 (n : Z) : digits1 (digits_of n) = true.
Proof. apply digits_fuel_digits1. reflexivity. Qed.

(** *** [toString] *)

Section FormatDigits.

Variables (ds : string) (st : Parse).
Hypothesis D : digits1 ds = true.
Hypothesis Hst : digit_step st = Int.
Hypothesis H0 : step st "0" = Int.

Lemma integer_literal (z : Z) :
  literal_end (parse_from st (ds ++ zeros z)) = true.
Proof.
  rewrite parse_from_app, (parse_digits1 ds st D), Hst.
  destruct (parse_all_digits (zeros z) Int (all_chars_zeros _)) as [E|E];
    rewrite E; reflexivity.
Qed.

Lemma fraction_state (i : nat) :
  (0 < i < String.length ds)%nat ->
  parse_from st (take i ds ++ "." ++ drop i ds) = Frac.
Proof.
  intros Hi.
  rewrite parse_from_app, (parse_digits1 _ st (digits1_take i ds D ltac:(lia))), Hst.
  change (parse_from Int ("." ++ drop i ds)) with (parse_from Point (drop i ds)).
  rewrite (parse_digits1 _ Point (digits1_drop i ds D ltac:(lia))). reflexivity.
Qed.

Lemma small_literal (z : Z) :
  literal_end (parse_from st ("0." ++ zeros z ++ ds)) = true.
Proof.
  change (parse_from st ("0." ++ zeros z ++ ds))
    with (parse_from (step (step st "0") ".") (zeros z ++ ds)).
  rewrite H0. change (step Int ".") with Point.
  rewrite parse_digits1; [reflexivity|].
  apply digits1_intro.
  - rewrite all_chars_app, all_chars_zeros, (digits1_all ds D). reflexivity.
  - rewrite length_app. pose proof (digits1_length ds D). lia.
Qed.

Lemma exponent_literal (b : bool) (x : Z) :
  literal_end
    (parse_from st (ds ++ (if b then "e-" else "e+") ++ digits_of x)) = true.
Proof.
  rewrite parse_from_app, (parse_digits1 ds st D), Hst, parse_from_app.
  replace (parse_from Int (if b then "e-" else "e+")) with MarkSign
    by (destruct b; reflexivity).
  rewrite (parse_digits1 _ _ (digits_of_digits1 _)). reflexivity.
Qed.

Lemma fraction_exponent_literal (b : bool) (x : Z) :
  (1 < String.length ds)%nat ->
  literal_end
    (parse_from st (take 1 ds ++ "." ++ drop 1 ds ++
                    (if b then "e-" else "e+") ++ digits_of x)) = true.
Proof.
  intros Hk.
  rewrite parse_from_app, (parse_digits1 _ st (digits1_take 1 ds D ltac:(lia))), Hst.
  change (parse_from Int ("." ++ drop 1 ds ++ (if b then "e-" else "e+") ++ digits_of x))
    with (parse_from Point (drop 1 ds ++ (if b then "e-" else "e+") ++ digits_of x)).
  rewrite parse_from_app, (parse_digits1 _ Point (digits1_drop 1 ds D ltac:(lia))).
  rewrite parse_from_app.
  replace (parse_from (digit_step Point) (if b then "e-" else "e+")) with FMarkSign
    by (destruct b; reflexivity).
  rewrite (parse_digits1 _ _ (digits_of_digits1 _)). reflexivity.
Qed.

Lemma format_digits_literal (n : Z) :
  literal_end (parse_from st (format_digits ds n)) = true.
Proof.
  unfold format_digits. cbv zeta.
  pose proof (digits1_length ds D) as Len.
  destruct ((Z.of_nat (String.length ds) <=? n) && (n <=? 21)) eqn:C1;
    [apply integer_literal|].
  destruct ((0 <? n) && (n <=? 21)) eqn:C2.
  { rewrite fraction_state; [reflexivity|]. lia. }
  destruct ((-6 <? n) && (n <=? 0)) eqn:C3; [apply small_literal|].
  destruct (Z.eqb_spec (Z.of_nat (String.length ds)) 1) as [K|K].
  - apply exponent_literal.
  - apply fraction_exponent_literal. lia.
Qed.

End FormatDigits.

Lemma shortest_digits1 (m : positive) (e : Z) : digits1 (fst (shortest m e)) = true.
Proof.
  unfold shortest. destruct (fraction_of m e) as [p q].
  destruct (shortest_from _ _ _ _ _ _) as [s n]. apply digits_of_digits1.
Qed.

Lemma toString_literal (x : number) :
  isFinite x = true -> literal (toString x) = true.
Proof.
  destruct x as [s| | |s m e]; try discriminate; intros _; [reflexivity|].
  unfold toString. pose proof (shortest_digits1 m e) as D.
  destruct (shortest m e) as [ds n]. simpl in D. unfold literal, parse.
  destruct s.
  - change (parse_from Start ("-" ++ format_digits ds n))
      with (parse_from Signed (format_digits ds n)).
    apply format_digits_literal; auto.
  - apply format_digits_literal; auto.
Qed.

(** *** Points and exponent marks *)

Lemma includes_point (c : ascii) (t : string) :
  includes "." (String c t) = (code c =? 46) || includes "." t.
Proof.
  change (includes "." (String c t)) with (prefix "." (String c t) || includes "." t).
  f_equal. destruct t; destruct c as [[] [] [] [] [] [] [] []]; reflexivity.
Qed.

Lemma includes_mark (c : ascii) (t : string) :
  includes "e" (String c t) = (code c =? 101) || includes "e" t.
Proof.
  change (includes "e" (String c t)) with (prefix "e" (String c t) || includes "e" t).
  f_equal. destruct t; destruct c as [[] [] [] [] [] [] [] []]; reflexivity.
Qed.

Lemma step_pointed (st : Parse) (c : ascii) :
  step st c <> Dead -> pointed (step st c) = pointed st || (code c =? 46).
Proof.
  destruct st; simpl; unfold is_sign, is_digit, between;
    repeat match goal with
           | |- context [?a =? ?b] => destruct (Z.eqb_spec a b)
           | |- context [?a <=? ?b] => destruct (Z.leb_spec a b)
           end; simpl; try reflexivity; try congruence; lia.
Qed.

Lemma step_marked (st : Parse) (c : ascii) :
  step st c <> Dead -> marked (step st c) = marked st || (code c =? 101).
Proof.
  destruct st; simpl; unfold is_sign, is_digit, between;
    repeat match goal with
           | |- context [?a =? ?b] => destruct (Z.eqb_spec a b)
           | |- context [?a <=? ?b] => destruct (Z.leb_spec a b)
           end; simpl; try reflexivity; try congruence; lia.
Qed.

Lemma parse_pointed (s : string) (st : Parse) :
  parse_from st s <> Dead ->
  pointed (parse_from st s) = pointed st || includes "." s.
Proof.
  revert st. induction s as [|c s IH]; intros st H.
  - simpl. rewrite orb_false_r. reflexivity.
  - simpl parse_from in *. rewrite includes_point, (IH _ H), orb_assoc. f_equal.
    apply step_pointed. intros E. rewrite E, parse_from_dead in H. congruence.
Qed.

Lemma parse_marked (s : string) (st : Parse) :
  parse_from st s <> Dead ->
  marked (parse_from st s) = marked st || includes "e" s.
Proof.
  revert st. induction s as [|c s IH]; intros st H.
  - simpl. rewrite orb_false_r. reflexivity.
  - simpl parse_from in *. rewrite includes_mark, (IH _ H), orb_assoc. f_equal.
    apply step_marked. intros E. rewrite E, parse_from_dead in H. congruence.
Qed.

(** A literal with a point and without an exponent is a plain fraction. *)
Lemma literal_fraction (s : string) :
  literal s = true -> includes "e" s = false -> includes "." s = true ->
  parse s = Frac.
Proof.
  unfold literal, parse. intros L E P.
  assert (N : parse_from Start s <> Dead) by (intros X; rewrite X in L; discriminate).
  pose proof (parse_pointed s Start N) as HP.
  pose proof (parse_marked s Start N) as HM.
  rewrite P in HP. rewrite E in HM.
  destruct (parse_from Start s); simpl in *; congruence.
Qed.

(** *** [toFixed] with ten digits *)

Lemma toFixed_fraction (x : number) :
  isFinite x = true ->
  parse (toFixed 10 x) = Frac \/ toFixed 10 x = toString x.
Proof.
  destruct x as [s| | |s m e]; try discriminate; intros _; [left; reflexivity|].
  unfold toFixed. destruct (fraction_of m e) as [p q].
  destruct (10 ^ 21 * q <=? p); [right; reflexivity|]. left. cbv zeta.
  set (ds := digits_of ((2 * p * 10 ^ 10 + q) / (2 * q))).
  pose proof (digits_of_digits1 ((2 * p * 10 ^ 10 + q) / (2 * q))) as D. fold ds in D.
  pose proof (digits1_length ds D) as Len.
  set (k := Z.of_nat (String.length ds)) in *.
  set (ds' := if k <=? 10 then (zeros (10 + 1 - k) ++ ds)%string else ds).
  assert (D' : digits1 ds' = true).
  { unfold ds'. destruct (k <=? 10); [|exact D]. apply digits1_intro.
    - rewrite all_chars_app, all_chars_zeros, (digits1_all ds D). reflexivity.
    - rewrite length_app. lia. }
  assert (L' : Z.of_nat (String.length ds') = Z.max k (10 + 1)).
  { unfold ds'. destruct (Z.leb_spec k 10).
    - rewrite length_app, length_zeros. unfold k in *. lia.
    - unfold k in *. lia. }
  change (10 =? 0) with false. cbv iota.
  unfold parse. destruct s.
  - change (parse_from Start ("-" ++ ?b)) with (parse_from Signed b).
    apply fraction_state; auto. lia.
  - change (parse_from Start ("" ++ ?b)) with (parse_from Start b).
    apply fraction_state; auto. lia.
Qed.

(** *** Removing the zeros at the end *)

Lemma all_zeros_digits1 (s : string) : all_zeros s = true -> digits1 s = true.
Proof.
  destruct s as [|c s]; [discriminate|]. unfold all_zeros, digits1.
  generalize (String c s). clear. intros s.
  induction s as [|a s IH]; simpl; [reflexivity|].
  intros H. apply andb_true_iff in H as [H1 H2]. rewrite (IH H2), andb_true_r.
  unfold is_digit, between. lia.
Qed.

Lemma strip_fraction (s : string) (st : Parse) :
  parse_from st s = Frac ->
  (st = Point -> all_zeros s = false) ->
  literal_end (parse_from st (strip_zero_tail s)) = true.
Proof.
  revert st. induction s as [|c s IH]; intros st H NP.
  - simpl in *. rewrite H. reflexivity.
  - unfold strip_zero_tail; fold strip_zero_tail.
    destruct (point_zeros (String c s)) eqn:PZ.
    + simpl. unfold point_zeros in PZ. apply orb_true_iff in PZ as [Z|Z].
      * rewrite (parse_digits1 _ st (all_zeros_digits1 _ Z)) in H.
        destruct st; simpl in H; try discriminate; [|reflexivity].
        rewrite (NP eq_refl) in Z. discriminate.
      * destruct c as [[] [] [] [] [] [] [] []]; try discriminate.
        change (parse_from st (String "." s)) with (parse_from (step st ".") s) in H.
        rewrite (parse_digits1 _ _ (all_zeros_digits1 _ Z)) in H.
        destruct st; simpl in H; try discriminate. reflexivity.
    + simpl parse_from in *. apply IH; [exact H|].
      intros E. unfold point_zeros in PZ. apply orb_false_iff in PZ as [_ PZ].
      destruct st; simpl in E;
        repeat match type of E with
               | context [if ?b then _ else _] => destruct b eqn:?
               end; try discriminate.
      destruct c as [[] [] [] [] [] [] [] []]; try discriminate. exact PZ.
Qed.

(** *** [formatNumber] *)

Lemma formatNumber_literal (n : number) :
  isFinite n = true -> literal (formatNumber n) = true.
Proof.
  intros F. unfold formatNumber. rewrite F. cbn [negb]. cbv zeta.
  set (n' := if is_neg_zero n then zero else n).
  assert (F' : isFinite n' = true) by (unfold n'; destruct (is_neg_zero n); auto).
  pose proof (toString_literal n' F') as L.
  destruct (includes "e" (toString n')) eqn:E; [exact L|].
  destruct (includes "." (toString n')) eqn:P; [|exact L].
  assert (Fr : parse (toFixed 10 n') = Frac).
  { destruct (toFixed_fraction n' F') as [H|H]; [exact H|].
    rewrite H. apply literal_fraction; assumption. }
  unfold literal, parse. apply strip_fraction; [exact Fr | discriminate].
Qed.

Lemma formatNumber_cases (n : number) :
  formatNumber n = "Error" \/ literal (formatNumber n) = true.
Proof.
  destruct (isFinite n) eqn:F; [right; apply formatNumber_literal, F|].
  left. unfold formatNumber. rewrite F. reflexivity.
Qed.

Lemma toNumber_finite (d : string) :
  isFinite (toNumber d) = true /\ bounded64 (toNumber d).
Proof.
  unfold toNumber. pose proof (Rounding.Number_bounded d) as B.
  destruct (isFinite (Number d)) eqn:F; [split; assumption|].
  split; [reflexivity | exact I].
Qed.

End Format.

(** ** Properties of the reducer *)

Module CalcFacts.
Import JS Calc Runs Display.

Lemma run_app (ks ks' : list Key) :
  run (ks ++ ks') = fold_left press ks' (run ks).
Proof. unfold run. apply fold_left_app. Qed.

Lemma steps_snoc (actions : list Action) (a : Action) :
  steps (actions ++ [a]) = reducer (steps actions) a.
Proof. unfold steps. rewrite fold_left_app. reflexivity. Qed.

Lemma run_steps (ks : list Key) : run ks = steps (map onKeyPress ks).
Proof.
  unfold run, steps. generalize initialState.
  induction ks as [|k ks IH]; intros s; simpl; [reflexivity|]. apply IH.
Qed.

(** C3. The keys 3, +, 4, ×, 2, = show 14: an operator pressed while another
    one is pending, with an accumulator and an operand being entered,
    evaluates the pending one on the accumulator and the display at once; the
    result is the new accumulator and the new display, and the operator
    pressed is the pending one. *)
Theorem chained_operator_evaluates_at_once :
  display (run [K3; KPlus; K4; KTimes; K2; KEquals]) = "14" /\
  forall (s : State) (pending o : Op) (a : number),
    op s = Some pending -> acc s = Some a -> entering s = true ->
    reducer s (OP o) =
      {| display := formatNumber (applyOp a (toNumber (display s)) pending);
         acc := Some (applyOp a (toNumber (display s)) pending);
         op := Some o; entering := false; justEvaluated := false |}.
Proof.
  split; [vm_compute; reflexivity|].
  intros s pending o a Hop Hacc Hent. unfold reducer.
  rewrite Hop, Hacc, Hent. reflexivity.
Qed.

Lemma chained_operator_witness :
  display (reducer (run [K3; KPlus; K4]) (OP Times)) = "7" /\
  acc (reducer (run [K3; KPlus; K4]) (OP Times)) = Some (of_Z 7) /\
  op (reducer (run [K3; KPlus; K4]) (OP Times)) = Some Times.
Proof.
  destruct chained_operator_evaluates_at_once as [_ H].
  rewrite (H (run [K3; KPlus; K4]) Plus Times (of_Z 3));
    [ vm_compute; repeat split | reflexivity | reflexivity | reflexivity ].
Defined.

(** C6. In every state, Percent puts the formatted value of display/100 on
    the display and clears [justEvaluated]; the accumulator, the pending
    operator and [entering] stay as they were.  5, 0, % shows 0.5. *)
Theorem percent_changes_display_only (s : State) :
  display (reducer s PERCENT) =
    formatNumber (div (toNumber (display s)) (of_Z 100)) /\
  justEvaluated (reducer s PERCENT) = false /\
  acc (reducer s PERCENT) = acc s /\
  op (reducer s PERCENT) = op s /\
  entering (reducer s PERCENT) = entering s /\
  display (run [K5; K0; KPercent]) = "0.5".
Proof. repeat split. Qed.

(** C10. A second Equals changes nothing: an Equals that evaluates clears the
    accumulator and the pending operator, so the next one leaves the display
    alone; 3, +, 4, =, = shows 7. *)
Theorem equals_twice_is_equals_once (s : State) :
  display (reducer (reducer s EQUALS) EQUALS) = display (reducer s EQUALS) /\
  reducer (reducer s EQUALS) EQUALS = reducer s EQUALS /\
  (forall pending a, op s = Some pending -> acc s = Some a ->
     acc (reducer s EQUALS) = None /\ op (reducer s EQUALS) = None) /\
  display (run [K3; KPlus; K4; KEquals; KEquals]) = "7".
Proof.
  assert (E : reducer (reducer s EQUALS) EQUALS = reducer s EQUALS).
  { unfold reducer. destruct (op s) as [o|], (acc s) as [a|]; reflexivity. }
  split; [rewrite E; reflexivity|]. split; [exact E|]. split.
  - intros pending a Hop Hacc. unfold reducer. rewrite Hop, Hacc. split; reflexivity.
  - vm_compute. reflexivity.
Qed.

Lemma equals_twice_witness :
  acc (reducer (run [K3; KPlus; K4]) EQUALS) = None /\
  op (reducer (run [K3; KPlus; K4]) EQUALS) = None.
Proof.
  destruct (equals_twice_is_equals_once (run [K3; KPlus; K4])) as (_ & _ & H & _).
  apply (H Plus (of_Z 3)); reflexivity.
Defined.

(** What one action does to the pair of the pending operator and the
    accumulator. *)
Lemma reducer_pair (s : State) (a : Action) :
  (op (reducer s a) <> None /\ acc (reducer s a) <> None) \/
  (op (reducer s a) = None /\ acc (reducer s a) = None) \/
  (op (reducer s a) = op s /\ acc (reducer s a) = acc s).
Proof.
  destruct a; unfold reducer; simpl.
  - destruct (negb (entering s) || _); [|destruct (String.eqb _ _)]; simpl; auto.
  - destruct (negb (entering s) || _); [|destruct (includes _ _)]; simpl; auto.
  - right; left; split; reflexivity.
  - destruct (String.eqb _ _); simpl; auto.
  - auto.
  - left. destruct (op s), (acc s), (entering s); simpl; split; discriminate.
  - destruct (op s), (acc s); simpl; auto.
Qed.

Lemma steps_pair (actions : list Action) :
  op (steps actions) = None <-> acc (steps actions) = None.
Proof.
  induction actions as [|a actions IH] using rev_ind.
  - split; reflexivity.
  - rewrite steps_snoc.
    destruct (reducer_pair (steps actions) a) as [[H1 H2]|[[H1 H2]|[H1 H2]]].
    + split; intros H; contradiction.
    + rewrite H1, H2. split; reflexivity.
    + rewrite H1, H2. exact IH.
Qed.

(** C5. In every state that a sequence of actions leads to from the initial
    state, the pending operator is there if and only if the accumulator is:
    an action sets both, clears both or leaves both as they were. *)
Theorem pending_operator_iff_accumulator (actions : list Action) :
  (op (steps actions) <> None <-> acc (steps actions) <> None) /\
  forall a : Action,
    (op (reducer (steps actions) a) <> None /\
     acc (reducer (steps actions) a) <> None) \/
    (op (reducer (steps actions) a) = None /\
     acc (reducer (steps actions) a) = None) \/
    (op (reducer (steps actions) a) = op (steps actions) /\
     acc (reducer (steps actions) a) = acc (steps actions)).
Proof.
  split.
  - pose proof (steps_pair actions) as [H1 H2].
    split; intros H E; apply H; auto.
  - intros a. apply reducer_pair.
Qed.

(** C1, as the code has it.  After 5, ÷, 0, = the display is "Error" and Clear
    resets the state.  An operator and a digit chained after it read the
    "Error" display as the number 0, so that 5, ÷, 0, =, op, d, = shows the
    formatted value of [0 op d].  A result that is not finite is carried on
    only in the accumulator: 5, ÷, 0, op, d, = shows "Error". *)
Theorem error_display_reads_as_zero (o : Op) (k : Key) (d : Z) :
  keyDigit k = Some d ->
  display (run (five_by_zero ++ [KEquals])) = "Error" /\
  reducer (run (five_by_zero ++ [KEquals])) CLEAR = initialState /\
  toNumber "Error" = zero /\
  display (run (five_by_zero ++ [KEquals; opKey o; k; KEquals])) =
    formatNumber (applyOp zero (of_Z d) o) /\
  display (run (five_by_zero ++ [opKey o; k; KEquals])) = "Error".
Proof.
  intros Hk. split; [vm_compute; reflexivity|]. split; [reflexivity|].
  split; [vm_compute; reflexivity|].
  destruct k; simpl in Hk; try discriminate;
    injection Hk as <-; destruct o; vm_compute; split; reflexivity.
Qed.

Lemma error_display_reads_as_zero_witness :
  display (run (five_by_zero ++ [KEquals; KMinus; K3; KEquals])) = "-3".
Proof.
  destruct (error_display_reads_as_zero Minus K3 3 eq_refl) as (_ & _ & _ & H & _).
  etransitivity; [exact H | vm_compute; reflexivity].
Defined.

(** The claim C1 as the spec has it fails: after 5, ÷, 0, = the keys +, 3, =
    show 3, a finite value, and not "Error". *)
Lemma error_then_plus_three_shows_three :
  display (run [K5; KDivide; K0; KEquals]) = "Error" /\
  display (run [K5; KDivide; K0; KEquals; KPlus; K3; KEquals]) = "3" /\
  display (run [K5; KDivide; K0; KEquals; KPlus; K3; KEquals]) <> "Error" /\
  isFinite (applyOp (toNumber "Error") (toNumber "3") Plus) = true.
Proof. vm_compute. repeat split. discriminate. Qed.

(** *** Division *)

Lemma strict_eq_zero (b : number) :
  strict_eq b zero = true <-> exists s, b = S754_zero s.
Proof.
  split.
  - destruct b as [s| [] | |[] m e]; try discriminate. intros _. exists s. reflexivity.
  - intros [s ->]. reflexivity.
Qed.

(** C4, as the code has it.  [applyOp] gives [NaN] for a division whenever the
    second operand is 0, and the quotient otherwise; for finite operands it
    gives [NaN] exactly when the second operand is 0.  Every value that is
    not finite is formatted as "Error", and 5, ÷, 0, = shows "Error".  All of
    these are values that the functions return. *)
Theorem division_by_zero_is_a_value :
  (forall a b, strict_eq b zero = true -> applyOp a b Divide = NaN) /\
  (forall a b, strict_eq b zero = false -> applyOp a b Divide = div a b) /\
  (forall a b, isFinite a = true -> isFinite b = true ->
     (applyOp a b Divide = NaN <-> strict_eq b zero = true)) /\
  (forall n, isFinite n = false -> formatNumber n = "Error") /\
  formatNumber NaN = "Error" /\
  display (run [K5; KDivide; K0; KEquals]) = "Error".
Proof.
  split; [intros a b H; unfold applyOp; rewrite H; reflexivity|].
  split; [intros a b H; unfold applyOp; rewrite H; reflexivity|].
  split.
  - intros a b Fa Fb. unfold applyOp.
    destruct (strict_eq b zero) eqn:E; [split; reflexivity|].
    split; [|discriminate]. intros H.
    elim (Rounding.div_finite_not_nan a b Fa Fb E H).
  - split; [intros n H; unfold formatNumber; rewrite H; reflexivity|].
    split; vm_compute; reflexivity.
Qed.

Lemma division_by_zero_witness :
  applyOp (of_Z 5) zero Divide = NaN /\
  applyOp (of_Z 6) (of_Z 3) Divide = of_Z 2 /\
  (applyOp (of_Z 5) (of_Z 2) Divide = NaN <-> strict_eq (of_Z 2) zero = true) /\
  formatNumber (S754_infinity false) = "Error".
Proof.
  destruct division_by_zero_is_a_value as (H1 & H2 & H3 & H4 & _).
  split; [apply H1; reflexivity|].
  split; [rewrite H2 by reflexivity; vm_compute; reflexivity|].
  split; [apply H3; reflexivity | apply H4; reflexivity].
Defined.

(** The claim C4 as the spec has it fails in one direction: a division can
    give [NaN] when the second operand is not 0.  After 5, ÷, 0, ÷ the
    accumulator is [NaN], and the keys 2, = divide it by 2. *)
Lemma nan_divided_by_two_is_nan :
  applyOp NaN (of_Z 2) Divide = NaN /\
  strict_eq (of_Z 2) zero = false /\
  acc (run [K5; KDivide; K0; KDivide; K2]) = Some NaN /\
  op (run [K5; KDivide; K0; KDivide; K2]) = Some Divide /\
  toNumber (display (run [K5; KDivide; K0; KDivide; K2])) = of_Z 2 /\
  display (run [K5; KDivide; K0; KDivide; K2; KEquals]) = "Error".
Proof. vm_compute. repeat split. Qed.

(** *** The display *)

Lemma literal_typed (d : string) : literal d = true -> typed_end (parse d) = true.
Proof. unfold literal. destruct (parse d); simpl; congruence. Qed.

Lemma typed_digit (st : Parse) :
  typed_end st = true -> typed_end (digit_step st) = true.
Proof. destruct st; simpl; congruence. Qed.

Lemma typed_point (d : string) :
  typed_end (parse d) = true -> includes "." d = false ->
  typed_end (parse (d ++ ".")) = true.
Proof.
  unfold parse. intros T P. rewrite Format.parse_from_app.
  assert (N : parse_from Start d <> Dead) by (intros E; rewrite E in T; discriminate).
  pose proof (Format.parse_pointed d Start N) as HP. rewrite P in HP.
  destruct (parse_from Start d); simpl in *; congruence.
Qed.

Lemma formatNumber_shown (n : number) (e j : bool) (a : option number) (o : option Op) :
  isFinite n = true ->
  well_shown {| display := formatNumber n; acc := a; op := o;
                entering := e; justEvaluated := j |}.
Proof. intros F. right. apply literal_typed, Format.formatNumber_literal, F. Qed.

Lemma formatNumber_shown_idle (n : number) (j : bool) (a : option number) (o : option Op) :
  well_shown {| display := formatNumber n; acc := a; op := o;
                entering := false; justEvaluated := j |}.
Proof.
  destruct (Format.formatNumber_cases n) as [E|L].
  - left. split; [exact E | reflexivity].
  - right. apply literal_typed, L.
Qed.

Lemma kept_shown_idle (s : State) (j : bool) (a : option number) (o : option Op) :
  well_shown s ->
  well_shown {| display := display s; acc := a; op := o;
                entering := false; justEvaluated := j |}.
Proof. intros [[E _]|T]; [left; split; [exact E | reflexivity] | right; exact T]. Qed.

Lemma reducer_well_shown (s : State) (a : Action) :
  (forall d, a = DIGIT d -> digits1 d = true) ->
  well_shown s -> well_shown (reducer s a).
Proof.
  intros Hd W. destruct (Format.toNumber_finite (display s)) as [F B].
  destruct a; unfold reducer.
  - (* DIGIT *)
    specialize (Hd digit eq_refl).
    assert (Fresh : typed_end (parse digit) = true).
    { unfold parse. rewrite (Format.parse_digits1 digit Start Hd). reflexivity. }
    destruct (negb (entering s) || _) eqn:C; [right; exact Fresh|].
    destruct (String.eqb (display s) "0"); [right; exact Fresh|].
    apply orb_false_iff in C as [C _]. apply negb_false_iff in C.
    destruct W as [[_ E]|T]; [congruence|]. right. simpl. unfold parse.
    rewrite Format.parse_from_app, (Format.parse_digits1 digit _ Hd).
    apply typed_digit, T.
  - (* DOT *)
    destruct (negb (entering s) || _) eqn:C; [right; reflexivity|].
    destruct (includes "." (display s)) eqn:P; [exact W|].
    apply orb_false_iff in C as [C _]. apply negb_false_iff in C.
    destruct W as [[_ E]|T]; [congruence|]. right. simpl.
    apply typed_point; assumption.
  - (* CLEAR *)
    right. reflexivity.
  - (* TOGGLE_SIGN *)
    destruct (String.eqb (display s) "0"); [exact W|].
    apply formatNumber_shown. destruct (toNumber (display s)); auto.
  - (* PERCENT *)
    apply formatNumber_shown, Rounding.div_hundred_finite; assumption.
  - (* OP *)
    destruct (op s) as [pending|]; [destruct (acc s) as [x|]; [destruct (entering s)|]|];
      try apply formatNumber_shown_idle; apply kept_shown_idle, W.
  - (* EQUALS *)
    destruct (op s) as [pending|]; [destruct (acc s) as [x|]|];
      try apply formatNumber_shown_idle; apply kept_shown_idle, W.
Qed.

Lemma key_digits (k : Key) (d : string) :
  onKeyPress k = DIGIT d -> digits1 d = true.
Proof. destruct k; simpl; intros [=]; subst d; reflexivity. Qed.

Lemma run_well_shown (ks : list Key) : well_shown (run ks).
Proof.
  induction ks as [|k ks IH] using rev_ind.
  - right. reflexivity.
  - rewrite run_app. simpl. unfold press at 1.
    apply reducer_well_shown; [apply key_digits | exact IH].
Qed.





End CalcFacts.

(** ** Properties of the entry of numbers and of chains *)

Module EntryFacts.
Import JS Calc Runs Display Entry CalcFacts.

(** *** One key *)

Lemma press_entering (s : State) (k : Key) :
  entryKey k = true -> entering s = true -> justEvaluated s = false ->
  display (press s k) = enter (display s) k /\
  entering (press s k) = true /\ justEvaluated (press s k) = false /\
  acc (press s k) = acc s /\ op (press s k) = op s.
Proof.
  intros K E J. unfold press, enter.
  destruct k; try discriminate; simpl; rewrite E, J; simpl;
    try (destruct (String.eqb (display s) "0"); simpl; auto);
    destruct (includes "." (display s)); simpl; auto.
Qed.

Lemma press_idle (s : State) (k : Key) :
  entryKey k = true -> entering s = false ->
  display (press s k) = enter "0" k /\
  entering (press s k) = true /\ justEvaluated (press s k) = false /\
  acc (press s k) = acc s /\ op (press s k) = op s.
Proof.
  intros K E. unfold press, enter.
  destruct k; try discriminate; simpl; rewrite E; simpl; auto.
Qed.

Lemma keys_entering (ks : list Key) (s : State) :
  forallb entryKey ks = true -> entering s = true -> justEvaluated s = false ->
  display (fold_left press ks s) = fold_left enter ks (display s) /\
  entering (fold_left press ks s) = true /\
  justEvaluated (fold_left press ks s) = false /\
  acc (fold_left press ks s) = acc s /\ op (fold_left press ks s) = op s.
Proof.
  revert s. induction ks as [|k ks IH]; intros s K E J; simpl; [auto|].
  simpl in K. apply andb_true_iff in K as [K1 K2].
  destruct (press_entering s k K1 E J) as (D & E' & J' & A & O).
  destruct (IH (press s k) K2 E' J') as (D2 & E2 & J2 & A2 & O2).
  rewrite D2, D, A2, O2, A, O. auto.
Qed.

Lemma run_entering (ks : list Key) :
  forallb entryKey ks = true ->
  display (run ks) = fold_left enter ks "0" /\
  entering (run ks) = true /\ justEvaluated (run ks) = false /\
  acc (run ks) = None /\ op (run ks) = None.
Proof. intros K. apply (keys_entering ks initialState K); reflexivity. Qed.

Lemma keys_idle (s : State) (ks : list Key) :
  entering s = false -> operandKeys ks = true ->
  display (fold_left press ks s) = display (run ks) /\
  entering (fold_left press ks s) = true /\
  justEvaluated (fold_left press ks s) = false /\
  acc (fold_left press ks s) = acc s /\ op (fold_left press ks s) = op s.
Proof.
  intros E K. destruct ks as [|k ks]; [discriminate|].
  unfold operandKeys in K. pose proof K as K'.
  simpl in K. apply andb_true_iff in K as [K1 K2].
  destruct (press_idle s k K1 E) as (D & E' & J' & A & O).
  destruct (keys_entering ks (press s k) K2 E' J') as (D2 & E2 & J2 & A2 & O2).
  destruct (run_entering (k :: ks) K') as (R & _).
  simpl fold_left in *. rewrite D2, D, R, A2, O2, A, O.
  replace (enter "0" k) with (enter (display initialState) k) by reflexivity.
  auto.
Qed.

(** X1.  The keys of an operand pressed in a state that is not entering a
    number (after an operator, after Equals) show what they show from the
    initial state, and keep the accumulator and the pending operator. *)
Theorem operand_entry_starts_afresh (s : State) (ks : list Key) :
  entering s = false -> operandKeys ks = true ->
  display (fold_left press ks s) = display (run ks) /\
  entering (fold_left press ks s) = true /\
  justEvaluated (fold_left press ks s) = false /\
  acc (fold_left press ks s) = acc s /\ op (fold_left press ks s) = op s.
Proof.
  intros E K. destruct ks as [|k ks]; [discriminate|].
  unfold operandKeys in K. pose proof K as K'.
  simpl in K. apply andb_true_iff in K as [K1 K2].
  destruct (press_idle s k K1 E) as (D & E' & J' & A & O).
  destruct (keys_entering ks (press s k) K2 E' J') as (D2 & E2 & J2 & A2 & O2).
  destruct (run_entering (k :: ks) K') as (R & _).
  simpl fold_left in *. rewrite D2, D, R, A2, O2, A, O.
  replace (enter "0" k) with (enter (display initialState) k) by reflexivity.
  auto.
Qed.

Lemma operand_entry_witness :
  display (fold_left press [K0; KDot; K5] (run [K7; KPlus])) = "0.5" /\
  acc (fold_left press [K0; KDot; K5] (run [K7; KPlus])) = Some (of_Z 7).
Proof.
  destruct (operand_entry_starts_afresh (run [K7; KPlus]) [K0; KDot; K5])
    as (D & _ & _ & A & _); [reflexivity | reflexivity |].
  rewrite D, A. split; vm_compute; reflexivity.
Defined.

(** *** Chains of operations *)

Lemma opKey_action (o : Op) : onKeyPress (opKey o) = OP o.
Proof. destruct o; reflexivity. Qed.

Lemma chain_from_pending (chain : list (Op * list Key)) :
  forall (ys : list Key) (o : Op) (a : number) (s : State),
  acc s = Some a -> op s = Some o -> entering s = false ->
  operandKeys ys = true ->
  forallb (fun c => operandKeys (snd c)) chain = true ->
  display (fold_left press (ys ++ chainKeys chain ++ [KEquals]) s) =
    formatNumber (chainValue (applyOp a (operand ys) o) chain) /\
  acc (fold_left press (ys ++ chainKeys chain ++ [KEquals]) s) = None /\
  op (fold_left press (ys ++ chainKeys chain ++ [KEquals]) s) = None.
Proof.
  induction chain as [|[o' ys'] chain IH]; intros ys o a s A O E K C;
    rewrite fold_left_app;
    destruct (keys_idle s ys E K) as (D1 & E1 & _ & A1 & O1);
    rewrite A in A1; rewrite O in O1;
    set (s1 := fold_left press ys s) in *.
  - simpl. unfold press, reducer. simpl onKeyPress. cbv iota.
    rewrite O1, A1. simpl. unfold operand. rewrite D1. auto.
  - simpl in C. apply andb_true_iff in C as [C1 C2].
    change (chainKeys ((o', ys') :: chain))
      with (opKey o' :: ys' ++ chainKeys chain)%list.
    change ((opKey o' :: ys' ++ chainKeys chain) ++ [KEquals])%list
      with (opKey o' :: ((ys' ++ chainKeys chain) ++ [KEquals]))%list.
    rewrite <- app_assoc. cbn [fold_left].
    assert (P : press s1 (opKey o') =
                {| display := formatNumber (applyOp a (operand ys) o);
                   acc := Some (applyOp a (operand ys) o);
                   op := Some o'; entering := false; justEvaluated := false |}).
    { unfold press. rewrite opKey_action. unfold reducer.
      rewrite O1, A1, E1. unfold operand. rewrite D1. reflexivity. }
    rewrite P.
    change (chainValue (applyOp a (operand ys) o) ((o', ys') :: chain))
      with (chainValue (applyOp (applyOp a (operand ys) o) (operand ys') o') chain).
    apply IH; auto.
Qed.

(** X2.  A chain of operations is evaluated from left to right, whatever
    its length: after a first operand and any number of operators, each with
    the keys of a second operand, Equals shows the formatted value of
    [((x o1 y1) o2 y2) ...] and leaves no accumulator and no operator. *)
Theorem chain_is_evaluated_left_to_right
  (xs ys : list Key) (o : Op) (chain : list (Op * list Key)) :
  forallb entryKey xs = true ->
  operandKeys ys = true ->
  forallb (fun c => operandKeys (snd c)) chain = true ->
  display (run (xs ++ chainKeys ((o, ys) :: chain) ++ [KEquals])) =
    formatNumber (chainValue (operand xs) ((o, ys) :: chain)) /\
  acc (run (xs ++ chainKeys ((o, ys) :: chain) ++ [KEquals])) = None /\
  op (run (xs ++ chainKeys ((o, ys) :: chain) ++ [KEquals])) = None.
Proof.
  intros X Y C. rewrite run_app.
  destruct (run_entering xs X) as (_ & E & _ & A & O).
  change (chainKeys ((o, ys) :: chain))
    with (opKey o :: ys ++ chainKeys chain)%list.
  change ((opKey o :: ys ++ chainKeys chain) ++ [KEquals])%list
    with (opKey o :: ((ys ++ chainKeys chain) ++ [KEquals]))%list.
  rewrite <- app_assoc. cbn [fold_left].
  assert (P : press (run xs) (opKey o) =
              {| display := display (run xs); acc := Some (operand xs);
                 op := Some o; entering := false; justEvaluated := false |}).
  { unfold press. rewrite opKey_action. unfold reducer. rewrite O, A. reflexivity. }
  rewrite P.
  change (chainValue (operand xs) ((o, ys) :: chain))
    with (chainValue (applyOp (operand xs) (operand ys) o) chain).
  apply chain_from_pending; auto.
Qed.

Lemma chain_witness :
  display (run [K1; KDot; K5; KPlus; K2; KTimes; K4; KMinus; K0; KDot; K5; KEquals])
  = "13.5".
Proof.
  destruct (chain_is_evaluated_left_to_right
              [K1; KDot; K5] [K2] Plus [(Times, [K4]); (Minus, [K0; KDot; K5])])
    as (D & _); [reflexivity | reflexivity | reflexivity |].
  etransitivity; [exact D | vm_compute; reflexivity].
Defined.

Lemma applyOp_nan (b : number) (o : Op) : applyOp NaN b o = NaN.
Proof. destruct o; simpl; try reflexivity. destruct (strict_eq b zero); reflexivity. Qed.

Lemma chainValue_nan (chain : list (Op * list Key)) : chainValue NaN chain = NaN.
Proof.
  induction chain as [|c chain IH]; [reflexivity|].
  unfold chainValue in *. simpl. rewrite applyOp_nan. exact IH.
Qed.

Lemma chainValue_app (x : number) (c1 c2 : list (Op * list Key)) :
  chainValue x (c1 ++ c2) = chainValue (chainValue x c1) c2.
Proof. unfold chainValue. apply fold_left_app. Qed.

Lemma chain_display (xs : list Key) (chain : list (Op * list Key)) :
  forallb entryKey xs = true ->
  forallb (fun c => operandKeys (snd c)) chain = true ->
  chain <> [] ->
  display (run (xs ++ chainKeys chain ++ [KEquals])) =
    formatNumber (chainValue (operand xs) chain).
Proof.
  intros X C N. destruct chain as [|[o ys] chain]; [congruence|].
  simpl in C. apply andb_true_iff in C as [Y C].
  rewrite run_app. destruct (run_entering xs X) as (_ & E & _ & A & O).
  change (chainKeys ((o, ys) :: chain))
    with (opKey o :: ys ++ chainKeys chain)%list.
  change ((opKey o :: ys ++ chainKeys chain) ++ [KEquals])%list
    with (opKey o :: ((ys ++ chainKeys chain) ++ [KEquals]))%list.
  rewrite <- app_assoc. cbn [fold_left].
  assert (P : press (run xs) (opKey o) =
              {| display := display (run xs); acc := Some (operand xs);
                 op := Some o; entering := false; justEvaluated := false |}).
  { unfold press. rewrite opKey_action. unfold reducer. rewrite O, A. reflexivity. }
  rewrite P.
  change (chainValue (operand xs) ((o, ys) :: chain))
    with (chainValue (applyOp (operand xs) (operand ys) o) chain).
  apply chain_from_pending; auto.
Qed.

(** X3.  A division by zero anywhere in a chain makes the chain show
    "Error" at Equals, whatever is computed before and after it. *)
Theorem division_by_zero_spoils_the_chain
  (xs ys : list Key) (before after : list (Op * list Key)) :
  forallb entryKey xs = true ->
  forallb (fun c => operandKeys (snd c)) before = true ->
  operandKeys ys = true ->
  forallb (fun c => operandKeys (snd c)) after = true ->
  strict_eq (operand ys) zero = true ->
  display (run (xs ++ chainKeys (before ++ (Divide, ys) :: after) ++ [KEquals]))
  = "Error".
Proof.
  intros X B Y A Z. rewrite chain_display.
  - rewrite chainValue_app.
    change (chainValue ?x ((Divide, ys) :: after))
      with (chainValue (applyOp x (operand ys) Divide) after).
    unfold applyOp at 1. rewrite Z, chainValue_nan. reflexivity.
  - exact X.
  - rewrite forallb_app, B. simpl. rewrite Y, A. reflexivity.
  - destruct before; discriminate.
Qed.

Lemma division_by_zero_spoils_witness :
  display (run ([K8] ++ chainKeys ([(Plus, [K1])] ++ (Divide, [K0; KDot; K0])
                                   :: [(Times, [K2]); (Minus, [K9])]) ++ [KEquals]))
  = "Error".
Proof.
  apply (division_by_zero_spoils_the_chain [K8] [K0; KDot; K0] [(Plus, [K1])]
           [(Times, [K2]); (Minus, [K9])]); reflexivity.
Defined.

(** *** Digits *)

Lemma zero_string (c : ascii) (t : string) :
  String.eqb (String c t) "0" = (code c =? 48) && match t with "" => true | _ => false end.
Proof.
  destruct t; destruct c as [[] [] [] [] [] [] [] []]; reflexivity.
Qed.

Lemma no_leading_zeros_snoc (w : string) (ch : ascii) :
  w <> "" ->
  no_leading_zeros (w ++ String ch "") =
  if String.eqb (no_leading_zeros w) "0" then String ch ""
  else (no_leading_zeros w ++ String ch "")%string.
Proof.
  induction w as [|a t IH]; intros N; [congruence|].
  destruct t as [|b t'].
  - cbn [append no_leading_zeros]. rewrite zero_string, andb_true_r.
    destruct (code a =? 48); reflexivity.
  - change (no_leading_zeros (String a (String b t') ++ String ch ""))
      with (if code a =? 48 then no_leading_zeros (String b t' ++ String ch "")
            else (String a (String b t') ++ String ch "")%string).
    change (no_leading_zeros (String a (String b t')))
      with (if code a =? 48 then no_leading_zeros (String b t')
            else String a (String b t')).
    destruct (code a =? 48) eqn:Z.
    + apply IH. discriminate.
    + rewrite zero_string, Z. reflexivity.
Qed.

Lemma digit_key_text (k : Key) :
  digitKey k = true ->
  exists ch, keyText k = String ch "" /\ onKeyPress k = DIGIT (String ch "").
Proof. destruct k; try discriminate; intros _; eexists; split; reflexivity. Qed.

Lemma digit_keys_entry (ks : list Key) :
  forallb digitKey ks = true -> forallb entryKey ks = true.
Proof.
  induction ks as [|k ks IH]; simpl; [reflexivity|]. intros H.
  apply andb_true_iff in H as [H1 H2]. unfold entryKey at 1.
  rewrite H1, (IH H2). reflexivity.
Qed.

Lemma typed_snoc (ks : list Key) (k : Key) :
  typed (ks ++ [k]) = (typed ks ++ keyText k)%string.
Proof.
  unfold typed. induction ks as [|x ks IH]; simpl.
  - generalize (keyText k). intros t. induction t; simpl; congruence.
  - rewrite IH. generalize (keyText x) as a. intros a.
    induction a as [|c a IHa]; simpl; [reflexivity | rewrite IHa; reflexivity].
Qed.

(** X4.  Digit keys pressed from the initial state show the digits typed,
    without zeros at the start: the display is never "05" or "00". *)
Theorem digits_are_shown_without_leading_zeros (ks : list Key) :
  forallb digitKey ks = true ->
  display (run ks) = no_leading_zeros (String "0" (typed ks)).
Proof.
  intros K. destruct (run_entering ks (digit_keys_entry ks K)) as (D & _).
  rewrite D. clear D.
  induction ks as [|k ks IH] using rev_ind; [reflexivity|].
  rewrite forallb_app in K. apply andb_true_iff in K as [K1 K2].
  simpl in K2. rewrite andb_true_r in K2.
  rewrite fold_left_app. cbn [fold_left]. rewrite (IH K1), typed_snoc.
  destruct (digit_key_text k K2) as (ch & T & A).
  unfold enter. rewrite A, T.
  change (String "0" (typed ks ++ String ch ""))
    with (String "0" (typed ks) ++ String ch "")%string.
  rewrite no_leading_zeros_snoc by discriminate. reflexivity.
Qed.

Lemma digits_witness :
  display (run [K0; K0; K5; K0; K7]) = "507".
Proof.
  rewrite (digits_are_shown_without_leading_zeros [K0; K0; K5; K0; K7]);
    reflexivity.
Defined.

(** *** The point *)

Lemma includes_point_end (d : string) : includes "." (d ++ ".") = true.
Proof.
  induction d as [|c d IH]; [reflexivity|].
  change (String c d ++ ".")%string with (String c (d ++ ".")).
  rewrite Format.includes_point, IH. apply orb_true_r.
Qed.

(** X5.  In every state, a second press of the point changes nothing: the
    state after two presses is the state after one. *)
Theorem point_twice_is_point_once (s : State) :
  reducer (reducer s DOT) DOT = reducer s DOT.
Proof.
  unfold reducer.
  destruct (entering s) eqn:E;
    destruct (justEvaluated s && is_none (op s) && is_none (acc s)) eqn:F;
    simpl; try reflexivity.
  destruct (includes "." (display s)) eqn:P; simpl.
  - rewrite ?E, ?F, ?P. simpl. rewrite ?E, ?F, ?P. reflexivity.
  - rewrite ?E, ?F, includes_point_end. reflexivity.
Qed.

Lemma pointed_dead (st : Parse) : pointed st = true -> step st "." = Dead.
Proof. destruct st; simpl; try discriminate; reflexivity. Qed.

Lemma point_code (c : ascii) : (code c =? 46) = true -> c = "."%char.
Proof. destruct c as [[] [] [] [] [] [] [] []]; try discriminate; reflexivity. Qed.

Lemma parse_points (d : string) (st : Parse) :
  parse_from st d <> Dead ->
  (points d + (if pointed st then 1 else 0) <= 1)%nat.
Proof.
  revert st. induction d as [|c d IH]; intros st N; simpl.
  - destruct (pointed st); lia.
  - simpl in N.
    assert (S : step st c <> Dead)
      by (intros E; rewrite E, Format.parse_from_dead in N; congruence).
    specialize (IH _ N). rewrite (Format.step_pointed st c S) in IH.
    destruct (code c =? 46) eqn:P.
    + destruct (pointed st) eqn:Q.
      * apply point_code in P. subst c. rewrite (pointed_dead st Q) in S. congruence.
      * simpl in IH. lia.
    + rewrite orb_false_r in IH. exact IH.
Qed.

(** X6.  In every state that the keys lead to, the display has at most one
    point. *)
Theorem display_has_one_point_at_most (ks : list Key) :
  (points (display (run ks)) <= 1)%nat.
Proof.
  destruct (run_well_shown ks) as [[E _]|T].
  - rewrite E. simpl. lia.
  - assert (N : parse_from Start (display (run ks)) <> Dead).
    { intros E. unfold parse in T. rewrite E in T. discriminate. }
    pose proof (parse_points _ _ N) as H. simpl in H. lia.
Qed.

(** *** "Error" *)

(** X7.  When the keys have led to the display "Error", no number is being
    entered: the next digit replaces the display, the point makes it "0.",
    and the keys of an operand show what they show from the initial
    state. *)
Theorem error_is_replaced (ks ys : list Key) (k : Key) :
  display (run ks) = "Error" ->
  entering (run ks) = false /\
  (entryKey k = true -> display (press (run ks) k) = enter "0" k) /\
  (operandKeys ys = true ->
   display (run (ks ++ ys)) = display (run ys)).
Proof.
  intros E.
  assert (I : entering (run ks) = false).
  { destruct (run_well_shown ks) as [[_ I]|T]; [exact I|].
    rewrite E in T. discriminate. }
  split; [exact I|]. split.
  - intros K. apply (press_idle _ _ K I).
  - intros K. rewrite run_app. apply (keys_idle _ _ I K).
Qed.

Lemma error_is_replaced_witness :
  display (run ([K5; KDivide; K0; KEquals] ++ [K4; K2])) = "42".
Proof.
  destruct (error_is_replaced [K5; KDivide; K0; KEquals] [K4; K2] K4) as (_ & _ & H).
  - vm_compute. reflexivity.
  - rewrite H; reflexivity.
Defined.

(** X8.  Whatever the state, even with "Error" or any other text on the
    display, Percent and ± leave a numeric literal on the display: they
    never show "Error". *)
Theorem percent_and_sign_show_a_number (s : State) :
  literal (display (reducer s PERCENT)) = true /\
  literal (display (reducer s TOGGLE_SIGN)) = true /\
  display (reducer s PERCENT) <> "Error" /\
  display (reducer s TOGGLE_SIGN) <> "Error".
Proof.
  destruct (Format.toNumber_finite (display s)) as [F B].
  assert (P : literal (display (reducer s PERCENT)) = true).
  { unfold reducer. simpl.
    apply Format.formatNumber_literal, Rounding.div_hundred_finite; assumption. }
  assert (T : literal (display (reducer s TOGGLE_SIGN)) = true).
  { unfold reducer. destruct (String.eqb_spec (display s) "0") as [E|E].
    - rewrite E. reflexivity.
    - simpl. apply Format.formatNumber_literal.
      destruct (toNumber (display s)); auto. }
  repeat split; auto; intros E; rewrite E in *; discriminate.
Qed.

(** *** Operators *)

(** X9.  An operator pressed right after an operator takes its place:
    nothing is evaluated twice, and the state is the one that the second
    operator alone gives. *)
Theorem operator_replaces_operator (s : State) (o1 o2 : Op) :
  reducer (reducer s (OP o1)) (OP o2) = reducer s (OP o2).
Proof.
  unfold reducer.
  destruct (op s) as [p|]; destruct (acc s) as [a|]; destruct (entering s);
    reflexivity.
Qed.

Lemma reducer_idle (s : State) (a : Action) :
  justEvaluated s && entering s = false ->
  justEvaluated (reducer s a) && entering (reducer s a) = false.
Proof.
  intros H. destruct a; unfold reducer.
  - destruct (negb (entering s) || _); [|destruct (String.eqb _ _)]; reflexivity.
  - destruct (negb (entering s) || _); [|destruct (includes _ _)];
      try reflexivity. exact H.
  - reflexivity.
  - destruct (String.eqb _ _); [exact H | reflexivity].
  - reflexivity.
  - destruct (op s), (acc s), (entering s); reflexivity.
  - destruct (op s), (acc s); reflexivity.
Qed.

(** X10.  In every state that a sequence of actions leads to, a number is
    not being entered right after Equals; so the test [startFresh] of the
    digit and point cases never decides: [!entering || startFresh] is
    [!entering]. *)
Theorem fresh_start_never_decides (actions : list Action) :
  justEvaluated (steps actions) && entering (steps actions) = false /\
  negb (entering (steps actions)) ||
    (justEvaluated (steps actions) && is_none (op (steps actions)) &&
     is_none (acc (steps actions)))
  = negb (entering (steps actions)).
Proof.
  assert (H : justEvaluated (steps actions) && entering (steps actions) = false).
  { induction actions as [|a actions IH] using rev_ind; [reflexivity|].
    rewrite steps_snoc. apply reducer_idle, IH. }
  split; [exact H|].
  destruct (justEvaluated (steps actions)), (entering (steps actions));
    try discriminate; reflexivity.
Qed.

(** *** After Equals *)

Lemma state_eq (s t : State) :
  display s = display t -> acc s = acc t -> op s = op t ->
  entering s = entering t -> justEvaluated s = justEvaluated t -> s = t.
Proof. destruct s, t; simpl; intros; subst; reflexivity. Qed.

Lemma after_equals (ks : list Key) :
  entering (run (ks ++ [KEquals])) = false /\
  acc (run (ks ++ [KEquals])) = None /\
  op (run (ks ++ [KEquals])) = None.
Proof.
  rewrite run_app. simpl. unfold press, reducer. simpl onKeyPress. cbv iota.
  pose proof (steps_pair (map onKeyPress ks)) as P. rewrite <- run_steps in P.
  destruct (op (run ks)) as [o|] eqn:O; destruct (acc (run ks)) as [a|] eqn:A;
    simpl; auto.
  - destruct P as [_ P]. discriminate (P eq_refl).
  - destruct P as [P _]. discriminate (P eq_refl).
Qed.

(** X11.  After Equals the keys of a number start a new calculation: the
    state is the one that these keys give from the initial state, whatever
    was pressed before. *)
Theorem equals_then_a_number_starts_anew (ks ys : list Key) :
  operandKeys ys = true ->
  run (ks ++ KEquals :: ys) = run ys.
Proof.
  intros K.
  replace (ks ++ KEquals :: ys)%list with ((ks ++ [KEquals]) ++ ys)%list
    by (rewrite <- app_assoc; reflexivity).
  rewrite run_app. destruct (after_equals ks) as (E & A & O).
  destruct (keys_idle _ ys E K) as (D1 & E1 & J1 & A1 & O1).
  assert (K' : forallb entryKey ys = true) by (destruct ys; [discriminate | exact K]).
  destruct (run_entering ys K') as (_ & E2 & J2 & A2 & O2).
  apply state_eq; congruence.
Qed.

Lemma equals_then_a_number_witness :
  run ([K3; KPlus; K4] ++ KEquals :: [K1; K2]) = run [K1; K2].
Proof. apply (equals_then_a_number_starts_anew [K3; KPlus; K4] [K1; K2]). reflexivity. Defined.

(** X12.  After Equals an operator goes on from the number that the display
    shows, read back from its text, and not from the result as it was
    computed: 1, ÷, 3, =, ×, 3, = shows 0.9999999999, while 1, ÷, 3, ×, 3, =
    shows 1. *)
Theorem equals_then_an_operator_reads_the_display
  (ks ys : list Key) (o : Op) (chain : list (Op * list Key)) :
  operandKeys ys = true ->
  forallb (fun c => operandKeys (snd c)) chain = true ->
  display (run ((ks ++ [KEquals]) ++ chainKeys ((o, ys) :: chain) ++ [KEquals])) =
    formatNumber
      (chainValue (toNumber (display (run (ks ++ [KEquals])))) ((o, ys) :: chain)).
Proof.
  intros Y C. rewrite (run_app (ks ++ [KEquals])).
  destruct (after_equals ks) as (E & A & O).
  set (s := run (ks ++ [KEquals])) in *.
  change (chainKeys ((o, ys) :: chain))
    with (opKey o :: ys ++ chainKeys chain)%list.
  change ((opKey o :: ys ++ chainKeys chain) ++ [KEquals])%list
    with (opKey o :: ((ys ++ chainKeys chain) ++ [KEquals]))%list.
  rewrite <- app_assoc. cbn [fold_left].
  assert (P : press s (opKey o) =
              {| display := display s; acc := Some (toNumber (display s));
                 op := Some o; entering := false; justEvaluated := false |}).
  { unfold press. rewrite opKey_action. unfold reducer. rewrite O, A. reflexivity. }
  rewrite P.
  change (chainValue (toNumber (display s)) ((o, ys) :: chain))
    with (chainValue (applyOp (toNumber (display s)) (operand ys) o) chain).
  apply chain_from_pending; auto.
Qed.

Lemma equals_then_an_operator_witness :
  display (run (([K1; KDivide; K3] ++ [KEquals]) ++
                chainKeys [(Times, [K3])] ++ [KEquals])) = "0.9999999999" /\
  display (run [K1; KDivide; K3; KTimes; K3; KEquals]) = "1".
Proof.
  split; [|vm_compute; reflexivity].
  rewrite (equals_then_an_operator_reads_the_display [K1; KDivide; K3] [K3] Times []);
    [vm_compute; reflexivity | reflexivity | reflexivity].
Defined.

(** *** Arithmetic *)

(** X13.  Addition and multiplication do not depend on the order of the
    operands: the two results are the same number, bit for bit. *)
Theorem plus_and_times_commute (a b : number) :
  applyOp a b Plus = applyOp b a Plus /\
  applyOp a b Times = applyOp b a Times.
Proof.
  split; unfold applyOp, add, mul, SFadd, SFmul.
  - destruct a as [sa|sa| |sa ma ea], b as [sb|sb| |sb mb eb]; try reflexivity;
      try (destruct sa, sb; reflexivity).
    rewrite (Z.min_comm ea eb), Z.add_comm. reflexivity.
  - destruct a as [sa|sa| |sa ma ea], b as [sb|sb| |sb mb eb]; try reflexivity;
      try (rewrite xorb_comm; reflexivity).
    rewrite xorb_comm, Pos.mul_comm, Z.add_comm. reflexivity.
Qed.

(** X14.  A finite number minus itself, and a finite number times zero,
    show "0", without a sign. *)
Theorem zero_is_shown_without_sign (a : number) :
  isFinite a = true ->
  formatNumber (applyOp a a Minus) = "0" /\
  formatNumber (applyOp a zero Times) = "0" /\
  formatNumber (applyOp zero a Times) = "0".
Proof.
  intros F. destruct a as [s| | |s m e]; try discriminate.
  - destruct s; repeat split; reflexivity.
  - split; [|destruct s; split; reflexivity].
    unfold applyOp, sub, SFsub. cbv zeta. rewrite Z.min_id.
    unfold shl_align. rewrite (Z.sub_diag e). cbv iota. cbn [fst].
    rewrite (Z.sub_diag (cond_Zopp s (Zpos m))). reflexivity.
Qed.

Lemma zero_is_shown_witness :
  formatNumber (applyOp (neg (of_Z 7)) zero Times) = "0".
Proof. apply (zero_is_shown_without_sign (neg (of_Z 7))). reflexivity. Defined.

End EntryFacts.

(** ** Properties of the VIN utilities *)

Module VinFacts.
Import JS Vin VinSpec VinParts.

Ltac by_cases_on_char c :=
  destruct c as [[] [] [] [] [] [] [] []]; vm_compute; try reflexivity; try discriminate.

Lemma vin_char_upper (c : ascii) : is_vin_char (upper_char c) = is_alnum c.
Proof. by_cases_on_char c. Qed.

Lemma vin_char_fixed (c : ascii) : is_vin_char c = true -> upper_char c = c.
Proof. by_cases_on_char c. Qed.

Lemma vin_char_not_space (c : ascii) : is_vin_char c = true -> is_space c = false.
Proof. by_cases_on_char c. Qed.

Lemma alnum_not_space (c : ascii) : is_space c = true -> is_alnum c = false.
Proof. by_cases_on_char c. Qed.

Lemma is_ioq_spec (c : ascii) :
  is_ioq c = true <-> c = "I"%char \/ c = "O"%char \/ c = "Q"%char.
Proof.
  split.
  - by_cases_on_char c; auto.
  - intros [H|[H|H]]; subst c; reflexivity.
Qed.

Lemma any_char_contains (f : ascii -> bool) (s : string) :
  any_char f s = true <-> exists c, contains c s /\ f c = true.
Proof.
  unfold contains. induction s as [|a s IH]; simpl.
  - split; [discriminate | intros (c & [] & _)].
  - rewrite orb_true_iff, IH. split.
    + intros [H|(c & H1 & H2)]; [exists a; auto | exists c; auto].
    + intros (c & [<-|H1] & H2); [left; exact H2 | right; exists c; auto].
Qed.

Lemma ioq_contains (s : string) :
  any_char is_ioq s = true <->
  contains "I" s \/ contains "O" s \/ contains "Q" s.
Proof.
  rewrite any_char_contains. split.
  - intros (c & H1 & H2). apply is_ioq_spec in H2.
    destruct H2 as [H2|[H2|H2]]; subst c; auto.
  - intros [H|[H|H]]; eexists; (split; [exact H | reflexivity]).
Qed.

(** *** [validateVin] *)

(** C8. [validateVin] gives no error for the empty string; else the length
    error exactly when the length is not 17; else the letter error exactly
    when one of I, O, Q occurs; else no error.  The result is always a value:
    the function is total. *)
Theorem validateVin_cases (v : string) :
  (v = EmptyString -> validateVin v = None) /\
  (v <> EmptyString ->
     (validateVin v = Some length_error <-> String.length v <> 17%nat)) /\
  (v <> EmptyString -> String.length v = 17%nat ->
     (validateVin v = Some letter_error <->
      contains "I" v \/ contains "O" v \/ contains "Q" v)) /\
  (v <> EmptyString -> String.length v = 17%nat ->
     ~ (contains "I" v \/ contains "O" v \/ contains "Q" v) ->
     validateVin v = None).
Proof.
  unfold validateVin. split; [intros ->; reflexivity|].
  assert (Hne : v <> EmptyString -> (String.length v =? 0)%nat = false).
  { destruct v; [congruence | reflexivity]. }
  split; [|split].
  - intros Hv. rewrite (Hne Hv).
    destruct (Nat.eqb_spec (String.length v) 17) as [E|E]; simpl.
    + split; [|contradiction].
      destruct (any_char is_ioq v); [intros [=] | discriminate].
    + split; [intros _; exact E | reflexivity].
  - intros Hv E. rewrite (Hne Hv), E, <- ioq_contains. simpl.
    destruct (any_char is_ioq v); split; try reflexivity; discriminate.
  - intros Hv E. rewrite (Hne Hv), E, <- ioq_contains. simpl.
    destruct (any_char is_ioq v); [intros H; elim H; reflexivity | reflexivity].
Qed.

Lemma validateVin_cases_witness :
  validateVin "1HGCM82633A00435I" = Some letter_error /\
  validateVin "1HGCM82633A004352" = None /\
  validateVin "1HGCM" = Some length_error /\
  validateVin "" = None.
Proof.
  split; [|split; [|split]].
  - destruct (validateVin_cases "1HGCM82633A00435I") as (_ & _ & H & _).
    apply H; [discriminate | reflexivity |].
    left. unfold contains. simpl. intuition.
  - destruct (validateVin_cases "1HGCM82633A004352") as (_ & _ & _ & H).
    apply H; [discriminate | reflexivity |].
    unfold contains. simpl. intuition discriminate.
  - destruct (validateVin_cases "1HGCM") as (_ & H & _).
    apply H; [discriminate | simpl; lia].
  - destruct (validateVin_cases "") as (H & _). apply H. reflexivity.
Defined.

(** *** [normalizeVin] *)

Lemma filter_map_upper (s : string) :
  filter_chars is_vin_char (toUpperCase s) = toUpperCase (filter_chars is_alnum s).
Proof.
  unfold toUpperCase. induction s as [|c s IH]; simpl; [reflexivity|].
  rewrite vin_char_upper. destruct (is_alnum c); simpl; rewrite IH; reflexivity.
Qed.

Lemma filter_trimStart (s : string) :
  filter_chars is_alnum (trimStart s) = filter_chars is_alnum s.
Proof.
  induction s as [|c s IH]; simpl; [reflexivity|].
  destruct (is_space c) eqn:E; [|reflexivity].
  rewrite (alnum_not_space c E). exact IH.
Qed.

Lemma filter_trimEnd (s : string) :
  filter_chars is_alnum (trimEnd s) = filter_chars is_alnum s.
Proof.
  induction s as [|c s IH]; simpl; [reflexivity|].
  destruct (trimEnd s) as [|c' s'].
  - simpl in IH. rewrite <- IH. destruct (is_space c) eqn:E.
    + rewrite (alnum_not_space c E). reflexivity.
    + reflexivity.
  - change (filter_chars is_alnum (String c (String c' s')))
      with (if is_alnum c then String c (filter_chars is_alnum (String c' s'))
            else filter_chars is_alnum (String c' s')).
    rewrite IH. reflexivity.
Qed.

Lemma all_filter (f : ascii -> bool) (s : string) :
  all_chars f (filter_chars f s) = true.
Proof.
  induction s as [|c s IH]; simpl; [reflexivity|].
  destruct (f c) eqn:E; simpl; [rewrite E|]; exact IH.
Qed.

Lemma filter_all (f : ascii -> bool) (s : string) :
  all_chars f s = true -> filter_chars f s = s.
Proof.
  induction s as [|c s IH]; simpl; [reflexivity|].
  intros H. apply andb_true_iff in H as [H1 H2]. rewrite H1, (IH H2). reflexivity.
Qed.

Lemma upper_all (s : string) :
  all_chars is_vin_char s = true -> toUpperCase s = s.
Proof.
  unfold toUpperCase. induction s as [|c s IH]; simpl; [reflexivity|].
  intros H. apply andb_true_iff in H as [H1 H2].
  rewrite (vin_char_fixed c H1), (IH H2). reflexivity.
Qed.

Lemma trimStart_all (s : string) :
  all_chars is_vin_char s = true -> trimStart s = s.
Proof.
  destruct s as [|c s]; simpl; [reflexivity|].
  intros H. apply andb_true_iff in H as [H1 _].
  rewrite (vin_char_not_space c H1). reflexivity.
Qed.

Lemma trimEnd_all (s : string) :
  all_chars is_vin_char s = true -> trimEnd s = s.
Proof.
  induction s as [|c s IH]; simpl; [reflexivity|].
  intros H. apply andb_true_iff in H as [H1 H2]. rewrite (IH H2).
  destruct s; [rewrite (vin_char_not_space c H1)|]; reflexivity.
Qed.

(** For ASCII text: what is left are the letters and digits of the input, in
    order and upper-cased. *)
Lemma normalizeVin_keeps_alnum (x : string) :
  normalizeVin x = toUpperCase (filter_chars is_alnum x).
Proof.
  unfold normalizeVin, trim.
  rewrite filter_map_upper, filter_trimEnd, filter_trimStart. reflexivity.
Qed.


(** *** [extractVinFromText] *)


Lemma append_empty (s : string) : (s ++ "")%string = s.
Proof. induction s as [|c s IH]; simpl; [|rewrite IH]; reflexivity. Qed.

Lemma append_assoc (a b c : string) : ((a ++ b) ++ c)%string = (a ++ (b ++ c))%string.
Proof. induction a as [|x a IH]; simpl; [|rewrite IH]; reflexivity. Qed.

Lemma filter_flush (cur : string) : filter truthy [cur] = flush cur.
Proof. destruct cur; reflexivity. Qed.

Lemma filter_head_empty (l : list string) :
  filter truthy (head_append "" l) = filter truthy l.
Proof. destruct l; reflexivity. Qed.

(** After a separator the pieces are the same, up to an empty one. *)
Lemma split_after_separator (s : string) :
  filter truthy (split_spaces true s) = filter truthy (split_spaces false s).
Proof.
  destruct s as [|c s]; simpl; [reflexivity|].
  destruct (is_space c); reflexivity.
Qed.

Lemma split_is_tokens (u cur : string) :
  filter truthy (head_append cur (split_spaces false (map_chars blank u))) =
  tokens_from cur u.
Proof.
  revert cur. induction u as [|c u IH]; intros cur.
  - cbn [map_chars split_spaces head_append tokens_from].
    rewrite append_empty. apply filter_flush.
  - cbn [map_chars split_spaces tokens_from].
    destruct (is_vin_char c) eqn:E.
    + replace (blank c) with c by (unfold blank; rewrite E; reflexivity).
      rewrite (vin_char_not_space c E). rewrite <- IH.
      destruct (split_spaces false (map_chars blank u)) as [|p ps];
        cbn [head_append]; try rewrite append_assoc; reflexivity.
    + replace (blank c) with " "%char by (unfold blank; rewrite E; reflexivity).
      change (is_space " ") with true. cbv iota.
      cbn [head_append]. rewrite append_empty.
      change (cur :: split_spaces true (map_chars blank u))
        with ([cur] ++ split_spaces true (map_chars blank u))%list.
      rewrite filter_app, filter_flush, split_after_separator.
      rewrite <- (IH ""), filter_head_empty. reflexivity.
Qed.

Lemma join_app (l1 l2 : list string) :
  join (l1 ++ l2) = (join l1 ++ join l2)%string.
Proof.
  induction l1 as [|x l1 IH]; simpl; [reflexivity|].
  rewrite IH, append_assoc. reflexivity.
Qed.

Lemma join_flush (cur : string) : join (flush cur) = cur.
Proof. destruct cur; simpl; [|rewrite append_empty]; reflexivity. Qed.

Lemma squeeze_is_join (u cur : string) :
  (cur ++ squeeze (map_chars blank u))%string = join (tokens_from cur u).
Proof.
  revert cur. induction u as [|c u IH]; intros cur.
  - cbn [map_chars tokens_from]. unfold squeeze. cbn [filter_chars].
    rewrite append_empty, join_flush. reflexivity.
  - cbn [map_chars tokens_from]. unfold squeeze. cbn [filter_chars].
    fold (squeeze (map_chars blank u)).
    destruct (is_vin_char c) eqn:E.
    + replace (blank c) with c by (unfold blank; rewrite E; reflexivity).
      rewrite (vin_char_not_space c E). cbn [negb].
      rewrite <- IH, append_assoc. reflexivity.
    + replace (blank c) with " "%char by (unfold blank; rewrite E; reflexivity).
      change (is_space " ") with true. cbn [negb].
      rewrite join_app, join_flush, <- (IH ""). reflexivity.
Qed.

Lemma first_candidate_find (l : list string) :
  first_candidate l = find qualifies l.
Proof.
  induction l as [|c l IH]; simpl; [reflexivity|].
  unfold qualifies at 1. destruct (_ && _); [reflexivity | exact IH].
Qed.

Lemma drop_prefix (pre s : string) : drop (String.length pre) (pre ++ s) = s.
Proof. induction pre as [|c pre IH]; simpl; [destruct s|]; auto. Qed.

Lemma take_short (s : string) (n : nat) :
  (String.length (take n s) <= String.length s)%nat.
Proof.
  revert s. induction n as [|n IH]; intros [|c s]; simpl; try lia.
  specialize (IH s). lia.
Qed.

Lemma take_length (s : string) (n : nat) :
  (n <= String.length s)%nat -> String.length (take n s) = n.
Proof.
  revert s. induction n as [|n IH]; intros [|c s]; simpl; try lia.
  intros H. rewrite IH; lia.
Qed.

Lemma first_window_short (s : string) :
  (String.length s < 17)%nat -> first_window s = None.
Proof.
  induction s as [|c s IH]; [reflexivity|]. intros H.
  unfold first_window; fold first_window.
  destruct (Nat.leb_spec 17 (String.length (String c s))) as [L|L]; [lia|].
  simpl. apply IH. simpl in H. lia.
Qed.

Lemma append_length (a b : string) :
  String.length (a ++ b) = (String.length a + String.length b)%nat.
Proof. induction a as [|c a IH]; simpl; [|rewrite IH]; reflexivity. Qed.

Lemma window_loop_first_window (s pre : string) :
  window_loop (pre ++ s) (String.length s - 16) (String.length pre) =
  first_window s.
Proof.
  revert pre. induction s as [|c s IH]; intros pre; [reflexivity|].
  unfold first_window; fold first_window.
  destruct (Nat.leb_spec 17 (String.length (String c s))) as [L|L].
  - replace (String.length (String c s) - 16)%nat
      with (S (String.length s - 16)) by (simpl in *; lia).
    cbn [window_loop]. unfold slice.
    replace (String.length pre + 17 - String.length pre)%nat with 17%nat by lia.
    rewrite drop_prefix. unfold qualifies.
    rewrite take_length by exact L. rewrite Nat.eqb_refl. cbn [andb].
    destruct (negb (any_char is_ioq (take 17 (String c s)))); [reflexivity|].
    specialize (IH (pre ++ String c "")%string).
    rewrite append_assoc, append_length in IH. simpl in IH.
    rewrite Nat.add_1_r in IH. exact IH.
  - replace (String.length (String c s) - 16)%nat with 0%nat by lia.
    cbn [window_loop andb]. symmetry. apply first_window_short.
    simpl in L. lia.
Qed.



End VinFacts.

(** ** Properties of the recents list, of the Decode button and of a scan *)

Module LookupFacts.
Import JS Vin VinSpec VinParts Lookup VinFacts.

(** *** [pushRecent] *)

Lemma others_spec (v x : string) : others v x = true <-> x <> v.
Proof.
  unfold others. destruct (String.eqb_spec x v) as [E|E]; simpl; split;
    intros H; try reflexivity; try discriminate; congruence.
Qed.

Lemma filter_others_absent (v : string) (l : list string) :
  ~ In v l -> filter (others v) l = l.
Proof.
  induction l as [|x l IH]; simpl; [reflexivity|]. intros H.
  destruct (others v x) eqn:O.
  - rewrite IH; [reflexivity|]. intros I. apply H. right. exact I.
  - elim H. left. destruct (string_dec x v) as [E|E]; [exact E|].
    apply others_spec in E. congruence.
Qed.

Lemma others_same (v : string) : others v v = false.
Proof. unfold others. rewrite String.eqb_refl. reflexivity. Qed.

Lemma not_in_filter_others (v : string) (l : list string) :
  ~ In v (filter (others v) l).
Proof. intros H. apply filter_In in H as [_ H]. apply others_spec in H. congruence. Qed.

Lemma pushRecent_cons (recents : list string) (v : string) :
  pushRecent recents v = v :: firstn 9 (filter (others v) recents).
Proof. reflexivity. Qed.

Lemma NoDup_firstn (n : nat) (l : list string) : NoDup l -> NoDup (firstn n l).
Proof.
  revert n. induction l as [|x l IH]; intros [|n] H; simpl; try constructor.
  - inversion H as [|? ? H1 H2]; subst. intros I. apply H1.
    rewrite <- (firstn_skipn n l). apply in_or_app. left. exact I.
  - inversion H; subst. apply IH. assumption.
Qed.

Lemma in_firstn (n : nat) (x : string) (l : list string) :
  In x (firstn n l) -> In x l.
Proof.
  intros H. rewrite <- (firstn_skipn n l). apply in_or_app. left. exact H.
Qed.

(** X15.  Whatever the recents were, after [pushRecent] the list
    has at most ten entries, [v] is its first one and occurs once, and every
    other entry was a recent before. *)
Theorem pushRecent_front (recents : list string) (v : string) :
  (List.length (pushRecent recents v) <= MAX_RECENTS)%nat /\
  hd_error (pushRecent recents v) = Some v /\
  count_occ string_dec (pushRecent recents v) v = 1%nat /\
  forall x, In x (pushRecent recents v) -> x = v \/ In x recents.
Proof.
  split; [unfold pushRecent; apply firstn_le_length|].
  split; [reflexivity|]. split.
  - rewrite pushRecent_cons. cbn [count_occ].
    destruct (string_dec v v) as [_|N]; [|congruence]. f_equal.
    apply count_occ_not_In. intros H.
    apply in_firstn in H. exact (not_in_filter_others v recents H).
  - intros x H. rewrite pushRecent_cons in H. destruct H as [H|H]; [left; auto|].
    right. apply in_firstn in H. apply filter_In in H. tauto.
Qed.

Lemma pushRecent_front_witness :
  "B" = "C" \/ In "B" ["A"; "B"].
Proof.
  destruct (pushRecent_front ["A"; "B"] "C") as (_ & _ & _ & H).
  apply H. simpl. auto.
Defined.

(** X16.  A list of recents without duplicates stays without duplicates. *)
Theorem pushRecent_NoDup (recents : list string) (v : string) :
  NoDup recents -> NoDup (pushRecent recents v).
Proof.
  intros H. rewrite pushRecent_cons. constructor.
  - intros I. apply in_firstn in I. exact (not_in_filter_others v recents I).
  - apply NoDup_firstn, NoDup_filter, H.
Qed.

Lemma pushRecent_NoDup_witness :
  NoDup (pushRecent ["A"; "B"; "C"] "B").
Proof.
  apply pushRecent_NoDup.
  repeat constructor; simpl; intuition discriminate.
Defined.

(** X17.  Decoding the same VIN again changes nothing. *)
Theorem pushRecent_idempotent (recents : list string) (v : string) :
  pushRecent (pushRecent recents v) v = pushRecent recents v.
Proof.
  rewrite !pushRecent_cons. f_equal. cbn [filter].
  rewrite others_same.
  rewrite filter_others_absent.
  - rewrite firstn_firstn. reflexivity.
  - intros H. apply in_firstn in H. exact (not_in_filter_others v recents H).
Qed.

(** X18.  When the list is full and [v] is new, the oldest entry goes:
    the result is [v] before all the recents but the last. *)
Theorem pushRecent_evicts_oldest (recents : list string) (v : string) :
  List.length recents = MAX_RECENTS -> ~ In v recents ->
  pushRecent recents v = v :: removelast recents.
Proof.
  intros L N. rewrite pushRecent_cons, (filter_others_absent v recents N).
  f_equal. rewrite removelast_firstn_len, L. reflexivity.
Qed.

Lemma pushRecent_evicts_oldest_witness :
  pushRecent ["1"; "2"; "3"; "4"; "5"; "6"; "7"; "8"; "9"; "10"] "11" =
  ["11"; "1"; "2"; "3"; "4"; "5"; "6"; "7"; "8"; "9"].
Proof.
  apply (pushRecent_evicts_oldest
           ["1"; "2"; "3"; "4"; "5"; "6"; "7"; "8"; "9"; "10"] "11").
  - reflexivity.
  - simpl. intuition discriminate.
Defined.

Lemma length_filter_others (v : string) (l : list string) :
  NoDup l -> In v l -> S (List.length (filter (others v) l)) = List.length l.
Proof.
  induction l as [|x l IH]; simpl; [intros _ []|].
  intros H I. inversion H as [|? ? H1 H2]; subst.
  destruct (string_dec x v) as [E|E].
  - subst x. rewrite others_same, (filter_others_absent v l H1). reflexivity.
  - destruct I as [I|I]; [congruence|].
    apply others_spec in E. rewrite E. simpl. rewrite (IH H2 I). reflexivity.
Qed.

(** X19.  A VIN that is among the recents moves to the front: nothing is
    lost and nothing is added. *)
Theorem pushRecent_moves_to_front (recents : list string) (v : string) :
  NoDup recents -> (List.length recents <= MAX_RECENTS)%nat -> In v recents ->
  pushRecent recents v = v :: filter (others v) recents /\
  List.length (pushRecent recents v) = List.length recents /\
  forall x, In x (pushRecent recents v) <-> In x recents.
Proof.
  intros H L I. pose proof (length_filter_others v recents H I) as E.
  assert (P : pushRecent recents v = v :: filter (others v) recents).
  { rewrite pushRecent_cons. f_equal. apply firstn_all2. unfold MAX_RECENTS in L. lia. }
  split; [exact P|]. rewrite P. split; [simpl; exact E|].
  intros x. simpl. rewrite filter_In, others_spec. split.
  - intros [<-|[Hx _]]; assumption.
  - intros Hx. destruct (string_dec x v) as [->|N]; [left; reflexivity | right; auto].
Qed.

Lemma pushRecent_moves_to_front_witness :
  pushRecent ["A"; "B"; "C"] "C" = ["C"; "A"; "B"].
Proof.
  destruct (pushRecent_moves_to_front ["A"; "B"; "C"] "C") as (P & _).
  - repeat constructor; simpl; intuition discriminate.
  - simpl. unfold MAX_RECENTS. lia.
  - simpl. auto.
  - exact P.
Defined.

(** *** A sequence of decoded VINs *)







(** *** The Decode button *)

Lemma validateVin_none (v : string) :
  String.length v = 17%nat -> any_char is_ioq v = false -> validateVin v = None.
Proof. intros L Q. unfold validateVin. rewrite L, Q. reflexivity. Qed.

Lemma normalizeVin_fixed (v : string) :
  all_chars is_vin_char v = true -> normalizeVin v = v.
Proof.
  intros A. unfold normalizeVin, trim.
  rewrite (trimStart_all _ A), (trimEnd_all _ A), (upper_all _ A).
  apply filter_all, A.
Qed.

Lemma onDecodePress_some (vinInput : string) :
  String.length (normalizeVin vinInput) = 17%nat ->
  any_char is_ioq (normalizeVin vinInput) = false ->
  onDecodePress vinInput = Some (normalizeVin vinInput).
Proof.
  intros L Q. unfold onDecodePress, validateVin. rewrite L, Q. reflexivity.
Qed.

(** X21.  [onDecodePress] calls [decodeVin] only with the normalised input,
    and only when that has exactly 17 characters, all of [[A-Z0-9]] and none
    of them I, O or Q; whenever the normalised input is such a string, it
    does call it. *)
Theorem onDecodePress_sends_a_vin (vinInput : string) :
  (forall v, onDecodePress vinInput = Some v ->
     v = normalizeVin vinInput /\ String.length v = 17%nat /\
     all_chars is_vin_char v = true /\ any_char is_ioq v = false) /\
  (String.length (normalizeVin vinInput) = 17%nat ->
   any_char is_ioq (normalizeVin vinInput) = false ->
   onDecodePress vinInput = Some (normalizeVin vinInput)).
Proof.
  unfold onDecodePress, validateVin.
  set (vin := normalizeVin vinInput).
  assert (A : all_chars is_vin_char vin = true) by apply all_filter.
  split.
  - intros v.
    destruct (String.length vin =? 0)%nat eqn:Z;
      destruct (String.length vin =? 17)%nat eqn:L;
      destruct (any_char is_ioq vin) eqn:Q; simpl; try discriminate;
      intros [= <-]; apply Nat.eqb_eq in L;
      try (apply Nat.eqb_eq in Z; lia); auto.
  - intros L Q. fold vin in L, Q. rewrite L, Q. reflexivity.
Qed.

Lemma onDecodePress_witness :
  onDecodePress " 1hgcm82633a004352 " = Some "1HGCM82633A004352" /\
  String.length "1HGCM82633A004352" = 17%nat.
Proof.
  destruct (onDecodePress_sends_a_vin " 1hgcm82633a004352 ") as [H1 H2].
  assert (E : onDecodePress " 1hgcm82633a004352 " =
              Some (normalizeVin " 1hgcm82633a004352 "))
    by (apply H2; reflexivity).
  split; [exact E|]. apply (H1 _ E).
Defined.

(** *** What a scan finds *)

Lemma extractVinFromText_as_spec (text : string) :
  extractVinFromText text = extractVin text.
Proof.
  unfold extractVinFromText, extractVin, tokens.
  fold blank. fold squeeze.
  rewrite first_candidate_find.
  rewrite <- filter_head_empty, split_is_tokens.
  destruct (find qualifies (tokens_from "" (toUpperCase text))); [reflexivity|].
  pose proof (squeeze_is_join (toUpperCase text) "") as J. simpl in J.
  rewrite <- J. apply (window_loop_first_window _ "").
Qed.

Lemma all_vin_app (a b : string) :
  all_chars is_vin_char (a ++ b) =
  all_chars is_vin_char a && all_chars is_vin_char b.
Proof. induction a as [|c a IH]; simpl; [|rewrite IH, andb_assoc]; reflexivity. Qed.

Lemma tokens_from_all (u cur : string) :
  all_chars is_vin_char cur = true ->
  Forall (fun t => all_chars is_vin_char t = true) (tokens_from cur u).
Proof.
  revert cur. induction u as [|c u IH]; intros cur A; simpl.
  - destruct cur; constructor; auto.
  - destruct (is_vin_char c) eqn:E.
    + apply IH. rewrite all_vin_app, A. simpl. rewrite E. reflexivity.
    + apply Forall_app. split; [destruct cur; constructor; auto | apply IH; reflexivity].
Qed.

Lemma join_all (l : list string) :
  Forall (fun t => all_chars is_vin_char t = true) l ->
  all_chars is_vin_char (join l) = true.
Proof.
  induction 1 as [|t l H _ IH]; simpl; [reflexivity|].
  rewrite all_vin_app, H, IH. reflexivity.
Qed.

Lemma all_take (n : nat) (s : string) :
  all_chars is_vin_char s = true -> all_chars is_vin_char (take n s) = true.
Proof.
  revert s. induction n as [|n IH]; intros [|c s]; simpl; try reflexivity.
  intros H. apply andb_true_iff in H as [H1 H2]. rewrite H1, (IH s H2). reflexivity.
Qed.

Lemma first_window_some (s w : string) :
  first_window s = Some w ->
  qualifies w = true /\
  (all_chars is_vin_char s = true -> all_chars is_vin_char w = true).
Proof.
  revert w. induction s as [|c s IH]; intros w; [discriminate|].
  unfold first_window; fold first_window.
  destruct (_ && qualifies (take 17 (String c s))) eqn:E.
  - intros H. injection H as H. rewrite <- H.
    apply andb_true_iff in E as [_ E]. split; [exact E|].
    exact (all_take 17 (String c s)).
  - intros H. destruct (IH w H) as [Q A]. split; [exact Q|].
    intros B. apply A. simpl in B. apply andb_true_iff in B. tauto.
Qed.

Lemma extractVin_some (text v : string) :
  extractVin text = Some v ->
  qualifies v = true /\ all_chars is_vin_char v = true.
Proof.
  unfold extractVin, tokens.
  pose proof (tokens_from_all (toUpperCase text) "" eq_refl) as T.
  destruct (find qualifies _) as [t|] eqn:F.
  - intros [= <-]. apply find_some in F as [I Q]. split; [exact Q|].
    rewrite Forall_forall in T. apply T, I.
  - intros H. apply first_window_some in H as [Q A]. split; [exact Q|].
    apply A, join_all, T.
Qed.

(** X22.  What [extractVinFromText] finds is always a string of 17
    characters of [[A-Z0-9]] without I, O, Q.  Put in the input of the
    screen it is its own normal form, it has no error, and the Decode button
    sends it as it is. *)
Theorem scanned_vin_is_accepted (text v : string) :
  extractVinFromText text = Some v ->
  String.length v = 17%nat /\
  all_chars is_vin_char v = true /\
  any_char is_ioq v = false /\
  normalizeVin v = v /\
  validateVin v = None /\
  onDecodePress v = Some v.
Proof.
  rewrite extractVinFromText_as_spec. intros H.
  apply extractVin_some in H as [Q A]. unfold qualifies in Q.
  apply andb_true_iff in Q as [L Q]. apply Nat.eqb_eq in L.
  apply negb_true_iff in Q.
  pose proof (normalizeVin_fixed v A) as N.
  repeat split; auto using validateVin_none.
  pose proof (onDecodePress_some v) as D.
  rewrite N in D. apply D; assumption.
Qed.

Lemma scanned_vin_witness :
  onDecodePress "N1HGCM82633A00435" = Some "N1HGCM82633A00435".
Proof.
  apply (scanned_vin_is_accepted "vin 1hgcm826 33a004352 honda" "N1HGCM82633A00435").
  vm_compute. reflexivity.
Defined.

Lemma tokens_from_run (u cur : string) :
  all_chars is_vin_char u = true -> tokens_from cur u = flush (cur ++ u).
Proof.
  revert cur. induction u as [|c u IH]; intros cur A; simpl.
  - rewrite append_empty. reflexivity.
  - simpl in A. apply andb_true_iff in A as [A1 A2]. rewrite A1, (IH _ A2).
    rewrite append_assoc. reflexivity.
Qed.

(** X23.  A text that is, upper-cased, one run of 17 characters of
    [[A-Z0-9]] without I, O, Q is found as that VIN. *)
Theorem extractVinFromText_finds_a_vin (text : string) :
  all_chars is_vin_char (toUpperCase text) = true ->
  qualifies (toUpperCase text) = true ->
  extractVinFromText text = Some (toUpperCase text).
Proof.
  intros A Q. rewrite extractVinFromText_as_spec. unfold extractVin, tokens.
  rewrite (tokens_from_run _ "" A). simpl append.
  destruct (toUpperCase text) as [|c t] eqn:E; [discriminate|].
  simpl flush. simpl find. rewrite Q. reflexivity.
Qed.

Lemma extractVinFromText_finds_witness :
  extractVinFromText "1hgcm82633a004352" = Some "1HGCM82633A004352".
Proof.
  apply (extractVinFromText_finds_a_vin "1hgcm82633a004352"); reflexivity.
Defined.

(** *** A scan and the normal form *)

Lemma join_tokens (u cur : string) :
  (cur ++ filter_chars is_vin_char u)%string = join (tokens_from cur u).
Proof.
  revert cur. induction u as [|c u IH]; intros cur; simpl.
  - rewrite append_empty, join_flush. reflexivity.
  - destruct (is_vin_char c).
    + rewrite <- IH, append_assoc. reflexivity.
    + rewrite join_app, join_flush, <- (IH ""). reflexivity.
Qed.

Lemma join_normal_form (text : string) :
  join (tokens (toUpperCase text)) = normalizeVin text.
Proof.
  unfold tokens. rewrite <- join_tokens. simpl.
  rewrite filter_map_upper, normalizeVin_keeps_alnum. reflexivity.
Qed.

Lemma in_join (t : string) (l : list string) :
  In t l -> exists pre post, join l = (pre ++ t ++ post)%string.
Proof.
  induction l as [|x l IH]; simpl; [intros []|].
  intros [->|H].
  - exists "", (join l). reflexivity.
  - destruct (IH H) as (pre & post & E). exists (x ++ pre)%string, post.
    rewrite E, append_assoc. reflexivity.
Qed.

Lemma take_drop (n : nat) (s : string) : s = (take n s ++ drop n s)%string.
Proof.
  revert s. induction n as [|n IH]; intros [|c s]; simpl; try reflexivity.
  rewrite <- IH. reflexivity.
Qed.

Lemma first_window_part (s w : string) :
  first_window s = Some w -> exists pre post, s = (pre ++ w ++ post)%string.
Proof.
  revert w. induction s as [|c s IH]; intros w; [discriminate|].
  unfold first_window; fold first_window.
  destruct (_ && qualifies (take 17 (String c s))).
  - intros H. injection H as H. rewrite <- H.
    exists "", (drop 17 (String c s)). exact (take_drop 17 (String c s)).
  - intros H. destruct (IH w H) as (pre & post & E).
    exists (String c pre), post. rewrite E. reflexivity.
Qed.

(** X24.  What [extractVinFromText] finds is a part of the normal form of
    the text, 17 characters in a row; a text whose normal form has fewer
    than 17 characters (the empty text, too) has no VIN. *)
Theorem scanned_vin_is_part_of_normal_form (text : string) :
  (forall v, extractVinFromText text = Some v ->
     exists pre post, normalizeVin text = (pre ++ v ++ post)%string) /\
  ((String.length (normalizeVin text) < 17)%nat ->
   extractVinFromText text = None).
Proof.
  assert (P : forall v, extractVinFromText text = Some v ->
                exists pre post, normalizeVin text = (pre ++ v ++ post)%string).
  { intros v. rewrite extractVinFromText_as_spec. unfold extractVin.
    rewrite <- join_normal_form.
    destruct (find qualifies (tokens (toUpperCase text))) as [t|] eqn:F.
    - intros [= <-]. apply find_some in F as [I _]. apply in_join, I.
    - apply first_window_part. }
  split; [exact P|]. intros L.
  destruct (extractVinFromText text) as [v|] eqn:E; [|reflexivity].
  destruct (P v eq_refl) as (pre & post & N).
  rewrite extractVinFromText_as_spec in E.
  apply extractVin_some in E as [Q _]. unfold qualifies in Q.
  apply andb_true_iff in Q as [L17 _]. apply Nat.eqb_eq in L17.
  rewrite N, !append_length in L. lia.
Qed.

Lemma scanned_vin_part_witness :
  extractVinFromText "VIN 1HGCM826-33A" = None.
Proof.
  destruct (scanned_vin_is_part_of_normal_form "VIN 1HGCM826-33A") as [_ H].
  apply H. vm_compute. lia.
Defined.

(** *** Typing in the input *)

Lemma filter_chars_app (f : ascii -> bool) (a b : string) :
  filter_chars f (a ++ b) = (filter_chars f a ++ filter_chars f b)%string.
Proof.
  induction a as [|c a IH]; simpl; [reflexivity|].
  destruct (f c); simpl; rewrite IH; reflexivity.
Qed.

Lemma map_chars_app (f : ascii -> ascii) (a b : string) :
  map_chars f (a ++ b) = (map_chars f a ++ map_chars f b)%string.
Proof. induction a as [|c a IH]; simpl; [|rewrite IH]; reflexivity. Qed.

(** X25.  For ASCII text, what is typed after a text adds its own normal
    form to the normal form of the text. *)
Theorem normalizeVin_app (a b : string) :
  normalizeVin (a ++ b) = (normalizeVin a ++ normalizeVin b)%string.
Proof.
  rewrite !normalizeVin_keeps_alnum, filter_chars_app.
  unfold toUpperCase. apply map_chars_app.
Qed.

End LookupFacts.

